(** * mysql-db-compare: the three-stage comparison engine of [main.py]

    A shallow embedding of [DatabaseComparator] (table-set diffing,
    column-definition diffing, primary-key based row diffing) together with
    the properties its specification states about it.

    Conventions of the embedding.
    - A Python [str] is a Rocq [string] holding its UTF-8 bytes; the
      byte-wise order [String.le] coincides with Python's code-point order
      used by [sorted].
    - A Python [set] of [str] is a [gset string]; its iteration order is not
      fixed by the language (string hashing is salted per process), so every
      loop over a set goes through the [set_iter] of a [HashSeed].
    - A Python [dict] keyed by [str] is a [gmap string _].
    - [print] appends one line to a [list string]; the CSV written at the end
      of a stage holds exactly the accumulated record list.
    - The tabulated console table of stage 1 and the CSV encoding are
      input/output plumbing and are left out; writing the report files is
      taken to succeed. *)

From stdpp Require Import gmap strings list sorting pretty.

#[local] Set Warnings "-clear-no-such-hyp".

(** ** Strings, sets and sorting *)

Definition nl : string := String (Ascii.ascii_of_nat 10) EmptyString.

(** One process' layout of string sets: the order in which [for x in s]
    visits the elements of [s]. *)
Record HashSeed := {
  set_iter : gset string → list string;
  set_iter_perm : ∀ X, set_iter X ≡ₚ elements X
}.

(** [sorted(xs)] on strings.  The code only sorts sets, whose elements are
    distinct, so any sorting algorithm returns the list Python's does. *)
Definition sorted (xs : list string) : list string := merge_sort String.le xs.

(** ** Printed lines

    The lines the per-table code prints when a fetch fails or a table is
    skipped. *)
Definition schema_error_line (table err : string) : string :=
  "Error getting schema for table " +:+ table +:+ ": " +:+ err.
Definition columns_skipped_line (table : string) : string :=
  "Skipping column comparison for table " +:+ table +:+ " due to previous errors".
Definition keys_error_line (table err : string) : string :=
  "Error getting primary keys for table " +:+ table +:+ ": " +:+ err.
Definition data_error_line (table err : string) : string :=
  "Error fetching data from table " +:+ table +:+ ": " +:+ err.
Definition data_skipped_line (table : string) : string :=
  "Skipping data comparison for table " +:+ table +:+ " due to previous errors".
Definition no_primary_key_warning (table : string) : string :=
  "Warning: Table " +:+ table +:+ " has no primary key. Skipping data comparison.".
Definition no_data_differences (table : string) : string :=
  "No data differences found in table " +:+ table.

(** ** The database connections

    A connection answers the four queries the comparator issues.  A query
    either returns its rows or raises [mysql.connector.Error] while it is
    executed, inside the [try] block of its function.  The stages below are
    written for connections that hand out a cursor whenever asked; the
    refusal of a cursor, which happens outside the [try] blocks, is added
    by [Link] and the module [Cursors] further down. *)

Inductive query_result (A : Type) : Type :=
  | Fetched (rows : A)
  | MySQLError (err : string).
Arguments Fetched {A} rows.
Arguments MySQLError {A} err.

(** A row of [SHOW COLUMNS] as a dictionary cursor returns it, with its keys
    as field names ([Type_] for the key [Type]); [Default] is [None] for
    SQL NULL. *)
Record ColumnDescriptor := {
  Field : string;
  Type_ : string;
  Null : string;
  Key : string;
  Default : option string;
  Extra : string
}.

(** Cell values as pandas hands them back: [None], [nan], integers, text,
    and [PFloat z], the float [float(z)] of an integer, which is what a cell
    of an [int64] column becomes when the column is turned into [float64].
    Integers are taken below [2^53] in magnitude, where the conversion is
    exact and [str] of the float is the digits followed by [.0].  Other
    floats, dates and byte strings are left out. *)
Inductive PyVal : Type :=
  | PNone
  | PNaN
  | PInt (z : Z)
  | PFloat (z : Z)
  | PStr (s : string).

Global Instance PyVal_eq_dec : EqDecision PyVal.
Proof. solve_decision. Defined.

(** A [DataFrame]: column labels and positional rows. *)
Record DataFrame := {
  df_columns : list string;
  df_rows : list (list PyVal)
}.

Record Connection := {
  show_tables : query_result (list string);
  show_columns : string → query_result (list ColumnDescriptor);
  show_keys_primary : string → query_result (list string);
  select_all : string → query_result DataFrame
}.

(** ** Stage 1: [compare_schemas] *)

Record TableDifference := {
  td_Table : string;
  td_Instance_1 : string;
  td_Instance_2 : string;
  td_Difference : string
}.

Global Instance TableDifference_eq_dec : EqDecision TableDifference.
Proof. solve_decision. Defined.

(** [get_tables], from its [try] on: a failed query is printed and gives
    the empty list.  The cursor created before the [try] is in
    [Cursors.get_tables]. *)
Definition get_tables (connection : Connection) : list string :=
  match show_tables connection with
  | Fetched tables => tables
  | MySQLError _ => []
  end.

Definition only_in_instance1 (tables1 tables2 : gset string) : gset string :=
  tables1 ∖ tables2.
Definition only_in_instance2 (tables1 tables2 : gset string) : gset string :=
  tables2 ∖ tables1.
Definition common_tables (tables1 tables2 : gset string) : gset string :=
  tables1 ∩ tables2.

Definition missing_in_2 (table : string) : TableDifference :=
  {| td_Table := table; td_Instance_1 := "Present"; td_Instance_2 := "Missing";
     td_Difference := "Table missing in Instance 2" |}.
Definition missing_in_1 (table : string) : TableDifference :=
  {| td_Table := table; td_Instance_1 := "Missing"; td_Instance_2 := "Present";
     td_Difference := "Table missing in Instance 1" |}.
Definition present_in_both (table : string) : TableDifference :=
  {| td_Table := table; td_Instance_1 := "Present"; td_Instance_2 := "Present";
     td_Difference := "None" |}.

(** The three [for table in sorted(...)] loops appending to [schema_report]. *)
Definition schema_report_of (seed : HashSeed) (tables1 tables2 : gset string)
    : list TableDifference :=
  let schema_report := [] in
  let schema_report := schema_report ++
    (missing_in_2 <$> sorted (set_iter seed (only_in_instance1 tables1 tables2))) in
  let schema_report := schema_report ++
    (missing_in_1 <$> sorted (set_iter seed (only_in_instance2 tables1 tables2))) in
  let schema_report := schema_report ++
    (present_in_both <$> sorted (set_iter seed (common_tables tables1 tables2))) in
  schema_report.

(** [compare_schemas]: the table-level records and the returned common
    tables (the empty list of the early return is the empty set). *)
Definition compare_schemas (seed : HashSeed) (conn1 conn2 : Connection)
    : list TableDifference * gset string :=
  let tables1 : gset string := list_to_set (get_tables conn1) in
  let tables2 : gset string := list_to_set (get_tables conn2) in
  if decide (tables1 = ∅ ∧ tables2 = ∅) then ([], ∅)
  else (schema_report_of seed tables1 tables2, common_tables tables1 tables2).

(** ** Stage 2: [compare_columns] *)

Record ColumnDifference := {
  cd_Table : string;
  cd_Column : string;
  cd_Status : string;
  cd_Type_1 : string;
  cd_Null_1 : string;
  cd_Key_1 : string;
  cd_Default_1 : option string;
  cd_Extra_1 : string;
  cd_Type_2 : string;
  cd_Null_2 : string;
  cd_Key_2 : string;
  cd_Default_2 : option string;
  cd_Extra_2 : string;
  cd_Difference : string
}.

Global Instance ColumnDescriptor_eq_dec : EqDecision ColumnDescriptor.
Proof. solve_decision. Defined.
Global Instance ColumnDifference_eq_dec : EqDecision ColumnDifference.
Proof. solve_decision. Defined.

(** [get_table_schema], from its [try] on: the printed lines and the
    returned value.  The cursor created before the [try] is in
    [Cursors.get_table_schema]. *)
Definition get_table_schema (connection : Connection) (table_name : string)
    : list string * option (list ColumnDescriptor) :=
  match show_columns connection table_name with
  | Fetched columns => ([], Some columns)
  | MySQLError err =>
      ([schema_error_line table_name err], None)
  end.

(** [{col['Field']: col for col in columns}]: a later duplicate wins. *)
Definition columns_dict (columns : list ColumnDescriptor)
    : gmap string ColumnDescriptor :=
  foldl (λ d col, <[Field col := col]> d) ∅ columns.

(** [str(x)] and [f"{x}"] of a [Default] cell: [None] prints as the text
    [None], a string as itself. *)
Definition str_default (d : option string) : string :=
  match d with
  | None => "None"
  | Some s => s
  end.

(** [f"name({v1} vs {v2})"]. *)
Definition aspect (name v1 v2 : string) : string :=
  name +:+ "(" +:+ v1 +:+ " vs " +:+ v2 +:+ ")".

(** The [differences] list of a column present on both sides. *)
Definition differences_of (col1 col2 : ColumnDescriptor) : list string :=
  let differences := [] in
  let differences :=
    if decide (Type_ col1 ≠ Type_ col2)
    then differences ++ [aspect "Type" (Type_ col1) (Type_ col2)]
    else differences in
  let differences :=
    if decide (Null col1 ≠ Null col2)
    then differences ++ [aspect "Null" (Null col1) (Null col2)]
    else differences in
  let differences :=
    if decide (Key col1 ≠ Key col2)
    then differences ++ [aspect "Key" (Key col1) (Key col2)]
    else differences in
  let differences :=
    if decide (str_default (Default col1) ≠ str_default (Default col2))
    then differences ++
         [aspect "Default" (str_default (Default col1)) (str_default (Default col2))]
    else differences in
  let differences :=
    if decide (Extra col1 ≠ Extra col2)
    then differences ++ [aspect "Extra" (Extra col1) (Extra col2)]
    else differences in
  differences.

Definition only_in_1_column (table col : string) (col1 : ColumnDescriptor)
    : ColumnDifference :=
  {| cd_Table := table; cd_Column := col; cd_Status := "Only in Instance 1";
     cd_Type_1 := Type_ col1; cd_Null_1 := Null col1; cd_Key_1 := Key col1;
     cd_Default_1 := Default col1; cd_Extra_1 := Extra col1;
     cd_Type_2 := "N/A"; cd_Null_2 := "N/A"; cd_Key_2 := "N/A";
     cd_Default_2 := Some "N/A"; cd_Extra_2 := "N/A";
     cd_Difference := "Column missing in Instance 2" |}.

Definition only_in_2_column (table col : string) (col2 : ColumnDescriptor)
    : ColumnDifference :=
  {| cd_Table := table; cd_Column := col; cd_Status := "Only in Instance 2";
     cd_Type_1 := "N/A"; cd_Null_1 := "N/A"; cd_Key_1 := "N/A";
     cd_Default_1 := Some "N/A"; cd_Extra_1 := "N/A";
     cd_Type_2 := Type_ col2; cd_Null_2 := Null col2; cd_Key_2 := Key col2;
     cd_Default_2 := Default col2; cd_Extra_2 := Extra col2;
     cd_Difference := "Column missing in Instance 1" |}.

Definition different_column (table col : string) (col1 col2 : ColumnDescriptor)
    (differences : list string) : ColumnDifference :=
  {| cd_Table := table; cd_Column := col; cd_Status := "Different";
     cd_Type_1 := Type_ col1; cd_Null_1 := Null col1; cd_Key_1 := Key col1;
     cd_Default_1 := Default col1; cd_Extra_1 := Extra col1;
     cd_Type_2 := Type_ col2; cd_Null_2 := Null col2; cd_Key_2 := Key col2;
     cd_Default_2 := Default col2; cd_Extra_2 := Extra col2;
     cd_Difference := String.concat ", " differences |}.

(** The body of [for col in sorted(all_columns)]: the records appended for
    one column.  A descriptor dict always has its six keys, so it is truthy
    exactly when it is not [None]; [col] ranges over the union of the keys,
    so one of the two lookups succeeds. *)
Definition compare_column (table col : string)
    (col1 col2 : option ColumnDescriptor) : list ColumnDifference :=
  match col1, col2 with
  | Some col1, None => [only_in_1_column table col col1]
  | None, Some col2 => [only_in_2_column table col col2]
  | Some col1, Some col2 =>
      let differences := differences_of col1 col2 in
      if decide (differences ≠ [])
      then [different_column table col col1 col2 differences]
      else []
  | None, None => []
  end.

(** One table of the column loop once both schemas are fetched: the pair
    [(table_column_report, table_has_differences)]. *)
Definition compare_table_columns (seed : HashSeed) (table : string)
    (columns1 columns2 : list ColumnDescriptor) : list ColumnDifference * bool :=
  let columns1_dict := columns_dict columns1 in
  let columns2_dict := columns_dict columns2 in
  let all_columns := dom columns1_dict ∪ dom columns2_dict in
  foldl
    (λ '(table_column_report, table_has_differences) col,
       match compare_column table col (columns1_dict !! col) (columns2_dict !! col) with
       | [] => (table_column_report, table_has_differences)
       | records => (table_column_report ++ records, true)
       end)
    ([], false)
    (sorted (set_iter seed all_columns)).

(** The accumulators of [compare_columns] and what it printed. *)
Record ColumnsState := {
  column_reports : list ColumnDifference;
  tables_with_column_differences : nat;
  columns_stdout : list string
}.

Definition columns_print (line : string) (st : ColumnsState) : ColumnsState :=
  {| column_reports := column_reports st;
     tables_with_column_differences := tables_with_column_differences st;
     columns_stdout := columns_stdout st ++ [line] |}.

(** The body of [for table in common_tables]. *)
Definition compare_columns_table (seed : HashSeed) (conn1 conn2 : Connection)
    (st : ColumnsState) (table : string) : ColumnsState :=
  let st := columns_print (nl +:+ "Processing table: " +:+ table) st in
  let '(out1, columns1) := get_table_schema conn1 table in
  let st := foldl (flip columns_print) st out1 in
  let '(out2, columns2) := get_table_schema conn2 table in
  let st := foldl (flip columns_print) st out2 in
  match columns1, columns2 with
  | Some columns1, Some columns2 =>
      let '(table_column_report, table_has_differences) :=
        compare_table_columns seed table columns1 columns2 in
      if table_has_differences then
        {| column_reports := column_reports st ++ table_column_report;
           tables_with_column_differences := tables_with_column_differences st + 1;
           columns_stdout := columns_stdout st ++
             ["Found " +:+ pretty (length table_column_report) +:+
              " column differences in table " +:+ table] |}
      else columns_print ("No column differences found in table " +:+ table) st
  | _, _ =>
      columns_print (columns_skipped_line table) st
  end.

Definition columns_init : ColumnsState :=
  {| column_reports := []; tables_with_column_differences := 0;
     columns_stdout := [nl +:+ "=== Comparing table columns ==="] |}.

(** The loop of [compare_columns] over an explicit visiting order. *)
Definition compare_columns_loop (seed : HashSeed) (conn1 conn2 : Connection)
    (tables : list string) (st : ColumnsState) : ColumnsState :=
  foldl (compare_columns_table seed conn1 conn2) st tables.

(** [compare_columns]: the final accumulators; [2_column_comparison.csv] is
    written with [column_reports] when that list is not empty. *)
Definition compare_columns (seed : HashSeed) (report_dir : string)
    (conn1 conn2 : Connection) (common : gset string) : ColumnsState :=
  let st := compare_columns_loop seed conn1 conn2 (set_iter seed common) columns_init in
  match column_reports st with
  | [] => columns_print (nl +:+ "No column differences found in any tables.") st
  | _ =>
      let st := columns_print (nl +:+ "Found column differences in " +:+
                  pretty (tables_with_column_differences st) +:+ " tables") st in
      let csv_path := report_dir +:+ "/2_column_comparison.csv" in
      columns_print ("Column comparison report saved to: " +:+ csv_path) st
  end.

(** ** Stage 3: [compare_row_data] *)

Record RowDifference := {
  rd_Table : string;
  rd_Primary_Key : string;
  rd_Status : string;
  rd_Column : string;
  rd_Value_1 : string;
  rd_Value_2 : string;
  rd_Difference : string
}.

Global Instance RowDifference_eq_dec : EqDecision RowDifference.
Proof. solve_decision. Defined.

(** *** Python and pandas on cell values *)

(** [str(v)]. *)
Definition py_str (v : PyVal) : string :=
  match v with
  | PNone => "None"
  | PNaN => "nan"
  | PInt z => pretty z
  | PFloat z => pretty z +:+ ".0"
  | PStr s => s
  end.

(** The scalar [val1 == val2]: [nan] equals nothing, not even itself, and
    an integer equals the float of the same number. *)
Definition py_eq (val1 val2 : PyVal) : bool :=
  match val1, val2 with
  | PNone, PNone => true
  | PInt z1, PInt z2 | PInt z1, PFloat z2
  | PFloat z1, PInt z2 | PFloat z1, PFloat z2 => bool_decide (z1 = z2)
  | PStr s1, PStr s2 => bool_decide (s1 = s2)
  | _, _ => false
  end.

(** [pd.isna(v)]. *)
Definition isna (v : PyVal) : bool :=
  match v with
  | PNone | PNaN => true
  | _ => false
  end.

(** One element of the Series comparison [col1 != col2]: a missing value on
    either side compares as different. *)
Definition series_ne (v1 v2 : PyVal) : bool :=
  if isna v1 || isna v2 then true else negb (py_eq v1 v2).

(** Exceptions: those raised inside the [try] block of the row loop, and
    the [OperationalError] of [connection.cursor()] on a connection that has
    gone away.  [str(e)] of a [KeyError] is the [repr] of the missing
    label. *)
Inductive Exception : Type :=
  | KeyError (key_repr : string)
  | MergeError (msg : string)
  | ValueError (msg : string)
  | OperationalError (msg : string).

Definition str_exception (e : Exception) : string :=
  match e with
  | KeyError key_repr => key_repr
  | MergeError msg => msg
  | ValueError msg => msg
  | OperationalError msg => msg
  end.

Definition repr_str (s : string) : string := "'" +:+ s +:+ "'".

Global Instance result_ret : MRet (sum Exception) := λ A a, inr a.
Global Instance result_bind : MBind (sum Exception) := λ A B f m,
  match m with
  | inl e => inl e
  | inr a => f a
  end.
Global Instance result_fmap : FMap (sum Exception) := λ A B f m,
  match m with
  | inl e => inl e
  | inr a => inr (f a)
  end.

(** [row[label]] on a row whose labels are [columns]. *)
Fixpoint row_get (columns : list string) (row : list PyVal) (label : string)
    : option PyVal :=
  match columns, row with
  | c :: columns, v :: row =>
      if decide (c = label) then Some v else row_get columns row label
  | _, _ => None
  end.

Definition getitem (columns : list string) (row : list PyVal) (label : string)
    : Exception + PyVal :=
  match row_get columns row label with
  | Some v => inr v
  | None => inl (KeyError (repr_str label))
  end.

(** [row[labels]] for a list of labels. *)
Definition getitems (columns : list string) (row : list PyVal)
    (labels : list string) : Exception + list PyVal :=
  mapM (getitem columns row) labels.

(** [frame[label]]: one column of a frame as a Series. *)
Definition frame_getitem (columns : list string) (rows : list (list PyVal))
    (label : string) : Exception + list PyVal :=
  if decide (label ∈ columns)
  then mapM (λ row, getitem columns row label) rows
  else inl (KeyError (repr_str label)).

(** [format_pk] on the Series [row[pk_columns]]. *)
Definition format_pk (pk_values : list PyVal) : string :=
  String.concat ", " (py_str <$> pk_values).

(** *** [pd.merge(df1, df2, on=pk_columns, how='outer',
        suffixes=('_1', '_2'), indicator=True)]

    pandas is a library the comparator imports; this is the call as the
    comparator uses it, on primary-key cells that are never missing.  The
    joined frame keeps the left labels, then the right labels that are
    not join keys; a label that both sides have outside the keys gets the
    side's suffix.  The [_merge] column is the first component of a row.
    Rows are laid out left rows first (each with its matches), then the
    unmatched right rows; how pandas orders the joined rows differs between
    its versions and nothing below depends on it. *)

Inductive Indicator : Type := left_only | right_only | both.

Global Instance Indicator_eq_dec : EqDecision Indicator.
Proof. solve_decision. Defined.

Record MergedFrame := {
  mf_columns : list string;
  mf_rows : list (Indicator * list PyVal)
}.

Definition merged_columns (on columns1 columns2 : list string) : list string :=
  ((λ c, if decide (c ∈ on) then c
         else if decide (c ∈ columns2) then c +:+ "_1" else c) <$> columns1) ++
  ((λ c, if decide (c ∈ columns1) then c +:+ "_2" else c) <$>
     filter (λ c, c ∉ on) columns2).

Definition key_of (columns on : list string) (row : list PyVal)
    : list (option PyVal) :=
  row_get columns row <$> on.

Definition non_key_cells (on columns : list string) (row : list PyVal)
    : list PyVal :=
  (filter (λ cv, cv.1 ∉ on) (zip columns row)).*2.

Definition both_row (on columns2 : list string) (l r : list PyVal)
    : Indicator * list PyVal :=
  (both, l ++ non_key_cells on columns2 r).

Definition left_only_row (on columns2 : list string) (l : list PyVal)
    : Indicator * list PyVal :=
  (left_only, l ++ ((λ _, PNaN) <$> filter (λ c, c ∉ on) columns2)).

Definition right_only_row (on columns1 columns2 : list string) (r : list PyVal)
    : Indicator * list PyVal :=
  (right_only,
   ((λ c, if decide (c ∈ on) then default PNaN (row_get columns2 r c) else PNaN)
      <$> columns1) ++ non_key_cells on columns2 r).

Definition merged_rows (on : list string) (df1 df2 : DataFrame)
    : list (Indicator * list PyVal) :=
  let columns1 := df_columns df1 in
  let columns2 := df_columns df2 in
  flat_map
    (λ l, match filter (λ r, key_of columns2 on r = key_of columns1 on l)
                  (df_rows df2) with
          | [] => [left_only_row on columns2 l]
          | matches => both_row on columns2 l <$> matches
          end)
    (df_rows df1) ++
  (right_only_row on columns1 columns2 <$>
     filter (λ r, Forall (λ l, key_of columns1 on l ≠ key_of columns2 on r)
                    (df_rows df1))
       (df_rows df2)).

(** *** The dtypes of the joined frame

    A column that holds integers only is an [int64] column.  The outer join
    fills with [nan] the cells of a row that has no partner on the other
    side; an [int64] column that receives such cells becomes [float64], and
    every integer in it becomes a float.  The key columns are filled from
    either side and keep their dtype; columns of text or with missing
    values keep their cells as they are. *)
Definition to_float64 (v : PyVal) : PyVal :=
  match v with
  | PInt z => PFloat z
  | _ => v
  end.

Definition is_int (v : option PyVal) : bool :=
  match v with
  | Some (PInt _) => true
  | _ => false
  end.

Definition int64 (df : DataFrame) (col : string) : bool :=
  bool_decide (df_rows df ≠ []) &&
  forallb (λ row, is_int (row_get (df_columns df) row col)) (df_rows df).

Fixpoint astype_row (to_float : string → bool) (columns : list string)
    (row : list PyVal) : list PyVal :=
  match columns, row with
  | c :: columns, v :: row =>
      (if to_float c then to_float64 v else v) :: astype_row to_float columns row
  | _, _ => row
  end.

(** The frame with its [int64] columns outside the join keys as
    [float64]. *)
Definition padded (on : list string) (df : DataFrame) : DataFrame :=
  {| df_columns := df_columns df;
     df_rows :=
       astype_row (λ c, bool_decide (c ∉ on) && int64 df c) (df_columns df)
         <$> df_rows df |}.

(** The left frame as it enters the joined frame: padded when some right
    row has no partner; and the right frame likewise. *)
Definition left_frame (on : list string) (df1 df2 : DataFrame) : DataFrame :=
  if decide (filter (λ r, Forall (λ l, key_of (df_columns df1) on l ≠
                                        key_of (df_columns df2) on r)
                           (df_rows df1)) (df_rows df2) = [])
  then df1 else padded on df1.

Definition right_frame (on : list string) (df1 df2 : DataFrame) : DataFrame :=
  if decide (filter (λ l, filter (λ r, key_of (df_columns df2) on r =
                                        key_of (df_columns df1) on l)
                                 (df_rows df2) = [])
                    (df_rows df1) = [])
  then df2 else padded on df2.

(** The error of a merge whose labels are not distinct: the indicator
    column exists already, or the suffixes produce a label twice (the text
    names the first such label; with several, pandas prints them as a
    set). *)
Fixpoint first_duplicate (labels : list string) : option string :=
  match labels with
  | [] => None
  | label :: labels =>
      if decide (label ∈ labels) then Some label else first_duplicate labels
  end.

Definition merge_error (columns : list string) : Exception :=
  if decide ("_merge" ∈ columns)
  then ValueError "Cannot use name of an existing column for indicator column"
  else MergeError ("Passing 'suffixes' which cause duplicate columns {" +:+
                   repr_str (default EmptyString (first_duplicate columns)) +:+
                   "} is not allowed.").

Definition pd_merge (df1 df2 : DataFrame) (on : list string)
    : Exception + MergedFrame :=
  match filter (λ k, k ∉ df_columns df1 ∨ k ∉ df_columns df2) on with
  | k :: _ => inl (KeyError (repr_str k))
  | [] =>
      let columns := merged_columns on (df_columns df1) (df_columns df2) in
      if decide (NoDup (columns ++ ["_merge"]))
      then inr {| mf_columns := columns;
                  mf_rows := merged_rows on (left_frame on df1 df2)
                                            (right_frame on df1 df2) |}
      else inl (merge_error columns)
  end.

(** [merged[merged['_merge'] == ind]], without the indicator. *)
Definition rows_with (ind : Indicator) (merged : MergedFrame)
    : list (list PyVal) :=
  (filter (λ row, row.1 = ind) (mf_rows merged)).*2.

(** *** One table of the row loop *)

(** [diff_mask] starts as the scalar [False] and becomes a boolean Series
    with the first [|=]. *)
Inductive Mask : Type :=
  | MaskFalse
  | MaskSeries (bits : list bool).

Definition mask_or (diff_mask : Mask) (s : list bool) : Mask :=
  match diff_mask with
  | MaskFalse => MaskSeries s
  | MaskSeries bits => MaskSeries (zip_with orb bits s)
  end.

(** One element of [(col1 != col2) & ~(col1.isna() & col2.isna())]. *)
Definition mask_bit (v1 v2 : PyVal) : bool :=
  series_ne v1 v2 && negb (isna v1 && isna v2).

(** [for col in data_columns: ... diff_mask |= ...]. *)
Fixpoint diff_mask_loop (columns : list string) (in_both : list (list PyVal))
    (data_columns : list string) (diff_mask : Mask) : Exception + Mask :=
  match data_columns with
  | [] => inr diff_mask
  | col :: data_columns =>
      col1 ← frame_getitem columns in_both (col +:+ "_1");
      col2 ← frame_getitem columns in_both (col +:+ "_2");
      diff_mask_loop columns in_both data_columns
        (mask_or diff_mask (zip_with mask_bit col1 col2))
  end.

(** [in_both[diff_mask]]: a boolean Series selects rows, the scalar [False]
    is looked up as a column label and is not one. *)
Definition select_rows (in_both : list (list PyVal)) (diff_mask : Mask)
    : Exception + list (list PyVal) :=
  match diff_mask with
  | MaskFalse => inl (KeyError "False")
  | MaskSeries bits => inr (filter (λ rb, rb.2 = true) (zip in_both bits)).*1
  end.

Definition only_in_1_row (table : string) (pk_values : list PyVal) : RowDifference :=
  {| rd_Table := table; rd_Primary_Key := format_pk pk_values;
     rd_Status := "Only in Instance 1"; rd_Column := "ALL";
     rd_Value_1 := "Exists"; rd_Value_2 := "Missing";
     rd_Difference := "Row missing in Instance 2" |}.

Definition only_in_2_row (table : string) (pk_values : list PyVal) : RowDifference :=
  {| rd_Table := table; rd_Primary_Key := format_pk pk_values;
     rd_Status := "Only in Instance 2"; rd_Column := "ALL";
     rd_Value_1 := "Missing"; rd_Value_2 := "Exists";
     rd_Difference := "Row missing in Instance 1" |}.

Definition different_values_row (table : string) (pk_values : list PyVal)
    (col : string) (val1 val2 : PyVal) : RowDifference :=
  {| rd_Table := table; rd_Primary_Key := format_pk pk_values;
     rd_Status := "Different Values"; rd_Column := col;
     rd_Value_1 := py_str val1; rd_Value_2 := py_str val2;
     rd_Difference :=
       "Different values (" +:+ py_str val1 +:+ " vs " +:+ py_str val2 +:+ ")" |}.

(** The body of [for col in data_columns] inside the loop over
    [different_rows]: the records appended for one cell pair. *)
Definition compare_cell (table : string) (pk_columns columns : list string)
    (row : list PyVal) (col : string) : Exception + list RowDifference :=
  val1 ← getitem columns row (col +:+ "_1");
  val2 ← getitem columns row (col +:+ "_2");
  if py_eq val1 val2 || (isna val1 && isna val2) then mret []
  else
    pk_values ← getitems columns row pk_columns;
    mret [different_values_row table pk_values col val1 val2].

(** [for _, row in rows.iterrows(): for col in data_columns: ...]. *)
Definition compare_cells (table : string) (pk_columns columns : list string)
    (data_columns : list string) (rows : list (list PyVal))
    : Exception + list RowDifference :=
  per_row ←
    mapM (λ row, per_col ← mapM (compare_cell table pk_columns columns row)
                               data_columns;
                 mret (concat per_col))
         rows;
  mret (concat per_row).

(** The [try] body of one table after both frames are fetched:
    [table_data_report] and [table_has_differences], or the exception that
    leaves the block.  Every append sets the flag, so the flag says whether
    the report is non-empty. *)
Definition compare_table_rows (table : string) (pk_columns : list string)
    (df1 df2 : DataFrame) : Exception + (list RowDifference * bool) :=
  merged ← pd_merge df1 df2 pk_columns;
  let columns := mf_columns merged in
  only_in_instance1 ←
    mapM (λ row, getitems columns row pk_columns) (rows_with left_only merged);
  only_in_instance2 ←
    mapM (λ row, getitems columns row pk_columns) (rows_with right_only merged);
  let in_both := rows_with both merged in
  let data_columns := filter (λ col, col ∉ pk_columns) (df_columns df1) in
  diff_mask ← diff_mask_loop columns in_both data_columns MaskFalse;
  different_rows ← select_rows in_both diff_mask;
  let table_data_report := [] in
  let table_data_report :=
    table_data_report ++ (only_in_1_row table <$> only_in_instance1) in
  let table_data_report :=
    table_data_report ++ (only_in_2_row table <$> only_in_instance2) in
  different ← compare_cells table pk_columns columns data_columns different_rows;
  let table_data_report := table_data_report ++ different in
  mret (table_data_report, bool_decide (table_data_report ≠ [])).

(** [get_primary_keys] (from its [try] on; its cursor is in
    [Cursors.get_primary_keys]) and [get_table_data]: printed lines and
    result. *)
Definition get_primary_keys (connection : Connection) (table_name : string)
    : list string * list string :=
  match show_keys_primary connection table_name with
  | Fetched keys => ([], keys)
  | MySQLError err =>
      ([keys_error_line table_name err], [])
  end.

Definition get_table_data (connection : Connection) (table_name : string)
    : list string * option DataFrame :=
  match select_all connection table_name with
  | Fetched df => ([], Some df)
  | MySQLError e =>
      ([data_error_line table_name e], None)
  end.

Record RowsState := {
  data_reports : list RowDifference;
  tables_with_data_differences : nat;
  rows_stdout : list string
}.

Definition rows_print (line : string) (st : RowsState) : RowsState :=
  {| data_reports := data_reports st;
     tables_with_data_differences := tables_with_data_differences st;
     rows_stdout := rows_stdout st ++ [line] |}.

(** The body of [for table in common_tables], [try]/[except] included. *)
Definition compare_row_data_table (conn1 conn2 : Connection)
    (st : RowsState) (table : string) : RowsState :=
  let st := rows_print (nl +:+ "Processing table: " +:+ table) st in
  let '(out, pk_columns) := get_primary_keys conn1 table in
  let st := foldl (flip rows_print) st out in
  match pk_columns with
  | [] => rows_print (no_primary_key_warning table) st
  | _ =>
      let '(out1, df1) := get_table_data conn1 table in
      let st := foldl (flip rows_print) st out1 in
      let '(out2, df2) := get_table_data conn2 table in
      let st := foldl (flip rows_print) st out2 in
      match df1, df2 with
      | Some df1, Some df2 =>
          match compare_table_rows table pk_columns df1 df2 with
          | inr (table_data_report, table_has_differences) =>
              if table_has_differences then
                {| data_reports := data_reports st ++ table_data_report;
                   tables_with_data_differences :=
                     tables_with_data_differences st + 1;
                   rows_stdout := rows_stdout st ++
                     ["Found " +:+ pretty (length table_data_report) +:+
                      " data differences in table " +:+ table] |}
              else rows_print (no_data_differences table) st
          | inl e =>
              rows_print ("Error comparing data in table " +:+ table +:+ ": " +:+
                          str_exception e) st
          end
      | _, _ =>
          rows_print (data_skipped_line table) st
      end
  end.

Definition rows_init : RowsState :=
  {| data_reports := []; tables_with_data_differences := 0;
     rows_stdout := [nl +:+ "=== Comparing row data ==="] |}.

Definition compare_row_data_loop (conn1 conn2 : Connection)
    (tables : list string) (st : RowsState) : RowsState :=
  foldl (compare_row_data_table conn1 conn2) st tables.

(** [compare_row_data]: the final accumulators; [3_data_comparison.csv] is
    written with [data_reports] when that list is not empty. *)
Definition compare_row_data (seed : HashSeed) (report_dir : string)
    (conn1 conn2 : Connection) (common : gset string) : RowsState :=
  let st := compare_row_data_loop conn1 conn2 (set_iter seed common) rows_init in
  match data_reports st with
  | [] => rows_print (nl +:+ "No row-level data differences found in any tables.") st
  | _ =>
      let st := rows_print (nl +:+ "Found data differences in " +:+
                  pretty (tables_with_data_differences st) +:+ " tables") st in
      let csv_path := report_dir +:+ "/3_data_comparison.csv" in
      rows_print ("Data comparison report saved to: " +:+ csv_path) st
  end.

(** ** [run_comparison] on two open connections: the three record
    sequences handed to the report files. *)

Record Reports := {
  table_records : list TableDifference;
  column_records : list ColumnDifference;
  row_records : list RowDifference
}.

Definition run_comparison (seed : HashSeed) (report_dir : string)
    (conn1 conn2 : Connection) : Reports :=
  let '(schema_report, common) := compare_schemas seed conn1 conn2 in
  if decide (common ≠ ∅) then
    {| table_records := schema_report;
       column_records :=
         column_reports (compare_columns seed report_dir conn1 conn2 common);
       row_records :=
         data_reports (compare_row_data seed report_dir conn1 conn2 common) |}
  else
    {| table_records := schema_report; column_records := []; row_records := [] |}.

(** ** Definitions used to state the properties *)

(** Two hash seeds: one visits a set in ascending order, the other in
    descending order. *)
Definition seed_asc : HashSeed :=
  {| set_iter X := sorted (elements X);
     set_iter_perm X := merge_sort_Permutation String.le (elements X) |}.

Definition seed_desc : HashSeed :=
  {| set_iter X := reverse (sorted (elements X));
     set_iter_perm X :=
       transitivity (reverse_Permutation (sorted (elements X)))
                    (merge_sort_Permutation String.le (elements X)) |}.

(** The raw encodings of "no default" the specification names: SQL NULL
    and the text [NULL]. *)
Definition null_encoding (d : option string) : Prop :=
  d = None ∨ d = Some "NULL".

(** The specification's reading of [changedAspects]: the five aspects in
    their fixed order, each listed when its two values differ. *)
Definition changed_aspects_spec (col1 col2 : ColumnDescriptor) : list string :=
  flat_map
    (λ '(name, v1, v2), if decide (v1 ≠ v2) then [aspect name v1 v2] else [])
    [("Type", Type_ col1, Type_ col2);
     ("Null", Null col1, Null col2);
     ("Key", Key col1, Key col2);
     ("Default", str_default (Default col1), str_default (Default col2));
     ("Extra", Extra col1, Extra col2)].

(** "The two cell values differ and are not both null-equivalent." *)
Definition cell_differs (val1 val2 : PyVal) : bool :=
  negb (py_eq val1 val2) && negb (isna val1 && isna val2).

(** What the specification asks of one matched row and one data column:
    exactly one "Different Values" record when the cells differ, none
    otherwise. *)
Definition cell_emission_spec (table : string) (pk_columns columns : list string)
    (row : list PyVal) (col : string) (records : list RowDifference) : Prop :=
  ∃ val1 val2,
    getitem columns row (col +:+ "_1") = inr val1 ∧
    getitem columns row (col +:+ "_2") = inr val2 ∧
    if cell_differs val1 val2
    then ∃ pk_values, getitems columns row pk_columns = inr pk_values ∧
           records = [different_values_row table pk_values col val1 val2]
    else records = [].

(** Whether the two cells of [col] in a matched row differ, and whether
    some data column of the row does (lookups that fail count as equal). *)
Definition row_differs (columns : list string) (col : string) (row : list PyVal)
    : bool :=
  match getitem columns row (col +:+ "_1"), getitem columns row (col +:+ "_2") with
  | inr val1, inr val2 => cell_differs val1 val2
  | _, _ => false
  end.

Definition row_selected (columns data_columns : list string) (row : list PyVal)
    : bool :=
  existsb (λ col, row_differs columns col row) data_columns.

(** The frames [pd.read_sql] returns are rectangular. *)
Definition rectangular (df : DataFrame) : Prop :=
  Forall (λ row, length row = length (df_columns df)) (df_rows df).

(** The same server with other primary-key metadata. *)
Definition with_primary_keys (conn : Connection)
    (keys : string → query_result (list string)) : Connection :=
  {| show_tables := show_tables conn;
     show_columns := show_columns conn;
     show_keys_primary := keys;
     select_all := select_all conn |}.

(** The records one table contributes to each loop. *)
Definition table_column_records (seed : HashSeed) (conn1 conn2 : Connection)
    (table : string) : list ColumnDifference :=
  match get_table_schema conn1 table, get_table_schema conn2 table with
  | (_, Some columns1), (_, Some columns2) =>
      (compare_table_columns seed table columns1 columns2).1
  | _, _ => []
  end.

Definition table_row_records (conn1 conn2 : Connection) (table : string)
    : list RowDifference :=
  data_reports (compare_row_data_table conn1 conn2
    {| data_reports := []; tables_with_data_differences := 0; rows_stdout := [] |}
    table).

(** Sample data. *)
Definition email_1 : ColumnDescriptor :=
  {| Field := "email"; Type_ := "varchar(255)"; Null := "YES"; Key := EmptyString;
     Default := None; Extra := EmptyString |}.
Definition email_2 : ColumnDescriptor :=
  {| Field := "email"; Type_ := "varchar(100)"; Null := "NO"; Key := EmptyString;
     Default := None; Extra := EmptyString |}.

Definition note_default (d : option string) : ColumnDescriptor :=
  {| Field := "note"; Type_ := "text"; Null := "YES"; Key := EmptyString;
     Default := d; Extra := EmptyString |}.

Definition orders_1 : DataFrame :=
  {| df_columns := ["id"; "status"; "amount"];
     df_rows := [[PInt 1; PStr "paid"; PNaN]; [PInt 2; PStr "new"; PInt 7]] |}.
Definition orders_2 : DataFrame :=
  {| df_columns := ["id"; "status"; "amount"];
     df_rows := [[PInt 1; PStr "pending"; PNone]; [PInt 3; PStr "new"; PInt 7]] |}.

(** A server with tables [a], [b] and [logs]: one column each, whose type is
    [column_type]; [a] and [b] have primary key [id], [logs] has none. *)
Definition sample_server (column_type : string) (data : DataFrame) : Connection :=
  {| show_tables := Fetched ["b"; "a"; "logs"];
     show_columns := λ _,
       Fetched [{| Field := "id"; Type_ := column_type; Null := "NO"; Key := "PRI";
                   Default := None; Extra := EmptyString |}];
     show_keys_primary := λ table,
       if decide (table = "logs") then Fetched [] else Fetched ["id"];
     select_all := λ _, Fetched data |}.

(** A server on which every per-table query of [table] fails. *)
Definition failing_on (table : string) (conn : Connection) : Connection :=
  {| show_tables := show_tables conn;
     show_columns := λ t,
       if decide (t = table) then MySQLError "lost connection" else show_columns conn t;
     show_keys_primary := λ t,
       if decide (t = table) then MySQLError "lost connection"
       else show_keys_primary conn t;
     select_all := λ t,
       if decide (t = table) then MySQLError "lost connection" else select_all conn t |}.

(** ** Definitions for the further properties *)

(** A server that lists [tables], each with columns [id] and [email] and
    primary key [id]. *)
Definition sample_on (tables : list string) : Connection :=
  {| show_tables := Fetched tables;
     show_columns := λ _, Fetched [email_1];
     show_keys_primary := λ _, Fetched ["id"];
     select_all := λ _, Fetched orders_1 |}.

(** The record of the same finding seen from the other instance: the
    statuses and the attribute fields of the two instances exchanged. *)
Definition mirror_status (status : string) : string :=
  if decide (status = "Only in Instance 1") then "Only in Instance 2"
  else if decide (status = "Only in Instance 2") then "Only in Instance 1"
  else status.

Definition mirror_column_record (r : ColumnDifference) (difference : string)
    : ColumnDifference :=
  {| cd_Table := cd_Table r; cd_Column := cd_Column r;
     cd_Status := mirror_status (cd_Status r);
     cd_Type_1 := cd_Type_2 r; cd_Null_1 := cd_Null_2 r; cd_Key_1 := cd_Key_2 r;
     cd_Default_1 := cd_Default_2 r; cd_Extra_1 := cd_Extra_2 r;
     cd_Type_2 := cd_Type_1 r; cd_Null_2 := cd_Null_1 r; cd_Key_2 := cd_Key_1 r;
     cd_Default_2 := cd_Default_1 r; cd_Extra_2 := cd_Extra_1 r;
     cd_Difference := difference |}.

(** The row comparison of a table written against the two frames
    themselves, without the joined frame: the rows of instance 1 whose key
    no row of instance 2 has, the rows of instance 2 whose key no row of
    instance 1 has, and for every pair of rows with the same key the data
    columns of instance 1 whose two cells differ. *)
Definition cell (columns : list string) (row : list PyVal) (col : string) : PyVal :=
  default PNaN (row_get columns row col).

Definition matches_of (on : list string) (df1 df2 : DataFrame) (l : list PyVal)
    : list (list PyVal) :=
  filter (λ r, key_of (df_columns df2) on r = key_of (df_columns df1) on l)
         (df_rows df2).

Definition matched_pairs (on : list string) (df1 df2 : DataFrame)
    : list (list PyVal * list PyVal) :=
  flat_map (λ l, (λ r, (l, r)) <$> matches_of on df1 df2 l) (df_rows df1).

Definition unmatched_left (on : list string) (df1 df2 : DataFrame)
    : list (list PyVal) :=
  filter (λ l, matches_of on df1 df2 l = []) (df_rows df1).

Definition unmatched_right (on : list string) (df1 df2 : DataFrame)
    : list (list PyVal) :=
  filter (λ r, Forall (λ l, key_of (df_columns df1) on l ≠
                            key_of (df_columns df2) on r) (df_rows df1))
         (df_rows df2).

Definition cell_report (table : string) (pk_columns : list string)
    (df1 df2 : DataFrame) (l r : list PyVal) (col : string) : list RowDifference :=
  let val1 := cell (df_columns df1) l col in
  let val2 := cell (df_columns df2) r col in
  if cell_differs val1 val2
  then [different_values_row table (cell (df_columns df1) l <$> pk_columns)
          col val1 val2]
  else [].

Definition frames_report (table : string) (pk_columns : list string)
    (df1 df2 : DataFrame) : list RowDifference :=
  let data_columns := filter (λ col, col ∉ pk_columns) (df_columns df1) in
  (only_in_1_row table <$>
     ((λ l, cell (df_columns df1) l <$> pk_columns) <$>
        unmatched_left pk_columns df1 df2)) ++
  (only_in_2_row table <$>
     ((λ r, cell (df_columns df2) r <$> pk_columns) <$>
        unmatched_right pk_columns df1 df2)) ++
  flat_map (λ '(l, r),
              flat_map (cell_report table pk_columns df1 df2 l r) data_columns)
           (matched_pairs pk_columns df1 df2).

(** The report by key of the two frames of a table, with the cells as they
    stand in the joined frame. *)
Definition row_report_by_key (table : string) (pk_columns : list string)
    (df1 df2 : DataFrame) : list RowDifference :=
  frames_report table pk_columns
    (left_frame pk_columns df1 df2) (right_frame pk_columns df1 df2).

(** The claim's words on the two cells of a matched pair of rows: the
    values differ and are not both null-equivalent; and the display string
    of a value. *)
Definition null_equivalent (v : PyVal) : Prop := v = PNone ∨ v = PNaN.

Definition same_value (v1 v2 : PyVal) : Prop :=
  match v1, v2 with
  | PNone, PNone => True
  | PInt a, PInt b | PInt a, PFloat b | PFloat a, PInt b | PFloat a, PFloat b =>
      a = b
  | PStr a, PStr b => a = b
  | _, _ => False
  end.

Definition values_differ (v1 v2 : PyVal) : Prop :=
  ¬ same_value v1 v2 ∧ ¬ (null_equivalent v1 ∧ null_equivalent v2).

Global Instance values_differ_dec (v1 v2 : PyVal) : Decision (values_differ v1 v2).
Proof.
  unfold values_differ, null_equivalent. destruct v1, v2; simpl; apply _.
Defined.





(** The labels [pd.merge] gives to the columns of the left and of the
    right frame. *)
Definition left_label (on columns2 : list string) (c : string) : string :=
  if decide (c ∈ on) then c else if decide (c ∈ columns2) then c +:+ "_1" else c.

Definition right_label (columns1 : list string) (c : string) : string :=
  if decide (c ∈ columns1) then c +:+ "_2" else c.

(** ** Cursors

    [get_tables], [get_table_schema] and [get_primary_keys] call
    [connection.cursor()] before their [try] block, so an error of that call
    is not caught by them.  A [Link] is a connection together with the
    cursor requests it refuses and the text of the error raised. *)
Inductive Query : Type :=
  | SHOW_TABLES
  | SHOW_COLUMNS (table : string)
  | SHOW_KEYS (table : string).

Record Link := {
  answers : Connection;
  refused : Query → option string
}.

Global Instance Query_eq_dec : EqDecision Query.
Proof. solve_decision. Defined.

(** A link that grants every cursor. *)
Definition granting (conn : Connection) : Link :=
  {| answers := conn; refused := λ _, None |}.

(** The same link once the connection is gone for the request [q]. *)
Definition losing_cursor (q : Query) (link : Link) : Link :=
  {| answers := answers link;
     refused := λ q',
       if decide (q' = q) then Some "MySQL Connection not available."
       else refused link q' |}.

Definition cursor (link : Link) (q : Query) : Exception + unit :=
  match refused link q with
  | Some err => inl (OperationalError err)
  | None => inr ()
  end.

Module Cursors.

(** The getters with their first line, [cursor = connection.cursor(...)]. *)
Definition get_tables (link : Link) : Exception + list string :=
  _ ← cursor link SHOW_TABLES;
  mret (get_tables (answers link)).

Definition get_table_schema (link : Link) (table_name : string)
    : Exception + (list string * option (list ColumnDescriptor)) :=
  _ ← cursor link (SHOW_COLUMNS table_name);
  mret (get_table_schema (answers link) table_name).

Definition get_primary_keys (link : Link) (table_name : string)
    : Exception + (list string * list string) :=
  _ ← cursor link (SHOW_KEYS table_name);
  mret (get_primary_keys (answers link) table_name).

(** [compare_schemas]: nothing catches what [get_tables] raises. *)
Definition compare_schemas (seed : HashSeed) (link1 link2 : Link)
    : Exception + (list TableDifference * gset string) :=
  _ ← get_tables link1;
  _ ← get_tables link2;
  mret (compare_schemas seed (answers link1) (answers link2)).

(** The body of the loop of [compare_columns]: it has no [try], so what
    either call of [get_table_schema] raises leaves the loop. *)
Definition compare_columns_table (seed : HashSeed) (link1 link2 : Link)
    (st : ColumnsState) (table : string) : Exception + ColumnsState :=
  _ ← get_table_schema link1 table;
  _ ← get_table_schema link2 table;
  mret (compare_columns_table seed (answers link1) (answers link2) st table).

Fixpoint compare_columns_loop (seed : HashSeed) (link1 link2 : Link)
    (tables : list string) (st : ColumnsState) : Exception + ColumnsState :=
  match tables with
  | [] => mret st
  | table :: tables =>
      st ← compare_columns_table seed link1 link2 st table;
      compare_columns_loop seed link1 link2 tables st
  end.

Definition compare_columns (seed : HashSeed) (report_dir : string)
    (link1 link2 : Link) (common : gset string) : Exception + ColumnsState :=
  st ← compare_columns_loop seed link1 link2 (set_iter seed common) columns_init;
  mret (match column_reports st with
        | [] =>
            columns_print (nl +:+ "No column differences found in any tables.") st
        | _ =>
            let st := columns_print (nl +:+ "Found column differences in " +:+
                        pretty (tables_with_column_differences st) +:+ " tables") st in
            let csv_path := report_dir +:+ "/2_column_comparison.csv" in
            columns_print ("Column comparison report saved to: " +:+ csv_path) st
        end).

(** The body of the loop of [compare_row_data]: what [get_primary_keys]
    raises is caught by the [except Exception] of the table. *)
Definition compare_row_data_table (link1 link2 : Link)
    (st : RowsState) (table : string) : RowsState :=
  match get_primary_keys link1 table with
  | inl e =>
      rows_print ("Error comparing data in table " +:+ table +:+ ": " +:+
                  str_exception e)
        (rows_print (nl +:+ "Processing table: " +:+ table) st)
  | inr _ => compare_row_data_table (answers link1) (answers link2) st table
  end.

Definition compare_row_data_loop (link1 link2 : Link)
    (tables : list string) (st : RowsState) : RowsState :=
  foldl (compare_row_data_table link1 link2) st tables.

Definition compare_row_data (seed : HashSeed) (report_dir : string)
    (link1 link2 : Link) (common : gset string) : RowsState :=
  let st := compare_row_data_loop link1 link2 (set_iter seed common) rows_init in
  match data_reports st with
  | [] => rows_print (nl +:+ "No row-level data differences found in any tables.") st
  | _ =>
      let st := rows_print (nl +:+ "Found data differences in " +:+
                  pretty (tables_with_data_differences st) +:+ " tables") st in
      let csv_path := report_dir +:+ "/3_data_comparison.csv" in
      rows_print ("Data comparison report saved to: " +:+ csv_path) st
  end.

(** The [try] block of [run_comparison] after [connect]: the records
    written to the three report files, and the exception that leaves the
    block, if any.  A stage that raises has written no file. *)
Definition run_comparison (seed : HashSeed) (report_dir : string)
    (link1 link2 : Link) : Reports * option Exception :=
  match compare_schemas seed link1 link2 with
  | inl e =>
      ({| table_records := []; column_records := []; row_records := [] |}, Some e)
  | inr (schema_report, common) =>
      if decide (common ≠ ∅) then
        match compare_columns seed report_dir link1 link2 common with
        | inl e =>
            ({| table_records := schema_report; column_records := [];
                row_records := [] |}, Some e)
        | inr columns =>
            ({| table_records := schema_report;
                column_records := column_reports columns;
                row_records :=
                  data_reports
                    (compare_row_data seed report_dir link1 link2 common) |}, None)
        end
      else
        ({| table_records := schema_report; column_records := [];
            row_records := [] |}, None)
  end.

End Cursors.

(** ** [connect], [disconnect] and the whole of [run_comparison]

    What [mysql.connector.connect] answers for one instance: a connection,
    or an error with its code ([errno]) and its text ([str(err)]). *)
Inductive Errno : Type :=
  | ER_ACCESS_DENIED_ERROR
  | ER_BAD_DB_ERROR
  | other_errno.

Inductive ConnectResult : Type :=
  | Connected (conn : Link)
  | ConnectError (errno : Errno) (err : string).

(** [self.conn1] and [self.conn2]: [None], a live connection, or a
    connection that has been closed. *)
Inductive Handle : Type :=
  | NoHandle
  | OpenHandle (conn : Link)
  | ClosedHandle.

Record Comparator := {
  conn1 : Handle;
  conn2 : Handle
}.

Definition new_comparator : Comparator := {| conn1 := NoHandle; conn2 := NoHandle |}.

(** The line the [except] clause of [connect] prints. *)
Definition connect_error_line (db_name : string) (errno : Errno) (err : string)
    : string :=
  match errno with
  | ER_ACCESS_DENIED_ERROR => "Error: Access denied for one or both instances"
  | ER_BAD_DB_ERROR =>
      "Error: Database " +:+ db_name +:+ " does not exist on one or both instances"
  | other_errno => "Error: " +:+ err
  end.

(** [connect]: the comparator afterwards, the printed lines, and the text
    of the exception it re-raises, if any.  Instance 2 is only contacted
    once instance 1 has answered. *)
Definition connect (db_name : string) (instance1 instance2 : ConnectResult)
    (self : Comparator) : Comparator * list string * option string :=
  let out := [nl +:+ "Connecting to Instance 1..."] in
  match instance1 with
  | ConnectError errno err =>
      (self, out ++ [connect_error_line db_name errno err], Some err)
  | Connected c1 =>
      let self := {| conn1 := OpenHandle c1; conn2 := conn2 self |} in
      let out := out ++ ["Connected to Instance 1 successfully.";
                         nl +:+ "Connecting to Instance 2..."] in
      match instance2 with
      | ConnectError errno err =>
          (self, out ++ [connect_error_line db_name errno err], Some err)
      | Connected c2 =>
          ({| conn1 := conn1 self; conn2 := OpenHandle c2 |},
           out ++ ["Connected to Instance 2 successfully."], None)
      end
  end.

Definition close (h : Handle) : Handle :=
  match h with
  | OpenHandle _ => ClosedHandle
  | _ => h
  end.

(** [disconnect]: closes what is there and connected. *)
Definition disconnect (self : Comparator) : Comparator :=
  {| conn1 := close (conn1 self); conn2 := close (conn2 self) |}.

(** The outcome of [run_comparison]: the comparator after the [finally]
    clause, the lines printed by [connect] and by [run_comparison] itself
    (the stages' own output is in their states), and the records written to
    the report files.  Writing the files is taken to succeed. *)
Record RunOutcome := {
  run_self : Comparator;
  run_stdout : list string;
  run_reports : Reports
}.

(** The two lines of the [except] clause of [run_comparison]. *)
Definition failed_run (e : string) : list string :=
  [nl +:+ "Error during comparison: " +:+ e;
   "Comparison incomplete due to errors."].

Definition run_comparison_from_connect (seed : HashSeed)
    (db_name report_dir : string) (instance1 instance2 : ConnectResult)
    : RunOutcome :=
  let nothing := {| table_records := []; column_records := []; row_records := [] |} in
  let '(self, out, raised) := connect db_name instance1 instance2 new_comparator in
  match raised, conn1 self, conn2 self with
  | Some e, _, _ =>
      {| run_self := disconnect self; run_stdout := out ++ failed_run e;
         run_reports := nothing |}
  | None, OpenHandle link1, OpenHandle link2 =>
      match Cursors.run_comparison seed report_dir link1 link2 with
      | (reports, Some e) =>
          {| run_self := disconnect self;
             run_stdout := out ++ failed_run (str_exception e);
             run_reports := reports |}
      | (reports, None) =>
          {| run_self := disconnect self;
             run_stdout := out ++
               [nl +:+ "=== Comparison completed successfully! ===";
                "Reports saved in directory: " +:+ report_dir];
             run_reports := reports |}
      end
  | None, _, _ =>
      (* not reached: [connect] returns normally only with both handles open *)
      {| run_self := disconnect self; run_stdout := out; run_reports := nothing |}
  end.

(** * Properties *)

(** ** Sorting and set iteration *)

Lemma sorted_Permutation (xs : list string) : sorted xs ≡ₚ xs.
Proof. apply merge_sort_Permutation. Qed.

Lemma sorted_StronglySorted (xs : list string) :
  StronglySorted String.le (sorted xs).
Proof. apply StronglySorted_merge_sort; apply _. Qed.

(** Sorting hides the visiting order of a set. *)
Lemma sorted_set_iter (seed : HashSeed) (X : gset string) :
  sorted (set_iter seed X) = sorted (elements X).
Proof.
  apply (StronglySorted_unique String.le); try apply sorted_StronglySorted.
  rewrite !sorted_Permutation. apply set_iter_perm.
Qed.

Lemma elem_of_sorted_set_iter (seed : HashSeed) (X : gset string) (x : string) :
  x ∈ sorted (set_iter seed X) ↔ x ∈ X.
Proof. rewrite sorted_Permutation, set_iter_perm. apply elem_of_elements. Qed.

Lemma NoDup_sorted_set_iter (seed : HashSeed) (X : gset string) :
  NoDup (sorted (set_iter seed X)).
Proof. rewrite sorted_Permutation, set_iter_perm. apply NoDup_elements. Qed.

Lemma set_iter_empty (seed : HashSeed) : set_iter seed ∅ = [].
Proof.
  apply Permutation_nil_r. rewrite set_iter_perm. by rewrite elements_empty.
Qed.

(** ** Stage 1 *)

Lemma schema_report_of_empty (seed : HashSeed) : schema_report_of seed ∅ ∅ = [].
Proof.
  unfold schema_report_of, only_in_instance1, only_in_instance2, common_tables.
  replace ((∅ : gset string) ∖ ∅) with (∅ : gset string) by set_solver.
  replace ((∅ : gset string) ∩ ∅) with (∅ : gset string) by set_solver.
  by rewrite set_iter_empty.
Qed.

Lemma compare_schemas_report (seed : HashSeed) (conn1 conn2 : Connection) :
  (compare_schemas seed conn1 conn2).1 =
    schema_report_of seed (list_to_set (get_tables conn1))
                          (list_to_set (get_tables conn2)).
Proof.
  unfold compare_schemas. case_decide as Hempty; [|done].
  destruct Hempty as [-> ->]. by rewrite schema_report_of_empty.
Qed.

Lemma compare_schemas_common (seed : HashSeed) (conn1 conn2 : Connection) :
  (compare_schemas seed conn1 conn2).2 =
    common_tables (list_to_set (get_tables conn1)) (list_to_set (get_tables conn2)).
Proof.
  unfold compare_schemas, common_tables. case_decide as Hempty; [|done].
  destruct Hempty as [-> ->]. set_solver.
Qed.

Lemma schema_report_tables (seed : HashSeed) (tables1 tables2 : gset string) :
  td_Table <$> schema_report_of seed tables1 tables2 =
    sorted (set_iter seed (only_in_instance1 tables1 tables2)) ++
    sorted (set_iter seed (only_in_instance2 tables1 tables2)) ++
    sorted (set_iter seed (common_tables tables1 tables2)).
Proof.
  unfold schema_report_of. rewrite app_nil_l, !fmap_app, <-!list_fmap_compose.
  rewrite <-(assoc_L (++)).
  f_equal; [|f_equal]; (etrans; [|apply list_fmap_id]); by apply list_fmap_ext.
Qed.

(** C5. The three groups computed by [compare_schemas] (only in instance 1,
    only in instance 2, common) are pairwise disjoint and their union is the
    union of the two table-name sets; accordingly the table-level report
    names every table of the union exactly once. *)
Theorem table_groups_partition (seed : HashSeed) (tables1 tables2 : gset string) :
  only_in_instance1 tables1 tables2 ## only_in_instance2 tables1 tables2 ∧
  only_in_instance1 tables1 tables2 ## common_tables tables1 tables2 ∧
  only_in_instance2 tables1 tables2 ## common_tables tables1 tables2 ∧
  only_in_instance1 tables1 tables2 ∪ only_in_instance2 tables1 tables2 ∪
    common_tables tables1 tables2 = tables1 ∪ tables2 ∧
  NoDup (td_Table <$> schema_report_of seed tables1 tables2) ∧
  (∀ table, table ∈ td_Table <$> schema_report_of seed tables1 tables2 ↔
            table ∈ tables1 ∪ tables2).
Proof.
  assert (Hdisj12 : only_in_instance1 tables1 tables2 ##
                    only_in_instance2 tables1 tables2)
    by (unfold only_in_instance1, only_in_instance2; set_solver).
  assert (Hdisj13 : only_in_instance1 tables1 tables2 ## common_tables tables1 tables2)
    by (unfold only_in_instance1, common_tables; set_solver).
  assert (Hdisj23 : only_in_instance2 tables1 tables2 ## common_tables tables1 tables2)
    by (unfold only_in_instance2, common_tables; set_solver).
  assert (Hunion : only_in_instance1 tables1 tables2 ∪
                   only_in_instance2 tables1 tables2 ∪
                   common_tables tables1 tables2 = tables1 ∪ tables2).
  { unfold only_in_instance1, only_in_instance2, common_tables.
    apply set_eq. intros x. rewrite !elem_of_union, !elem_of_difference,
      elem_of_intersection.
    destruct (decide (x ∈ tables1)), (decide (x ∈ tables2)); naive_solver. }
  split_and!; try done.
  - rewrite schema_report_tables. rewrite !NoDup_app.
    split_and!; try apply NoDup_sorted_set_iter.
    + intros x. rewrite elem_of_app, !elem_of_sorted_set_iter. set_solver.
    + intros x. rewrite !elem_of_sorted_set_iter. set_solver.
  - intros table. rewrite schema_report_tables, !elem_of_app,
      !elem_of_sorted_set_iter, <-Hunion. set_solver.
Qed.


(** ** Stage 2 *)

Lemma columns_fold_lookup_None (columns : list ColumnDescriptor)
    (d : gmap string ColumnDescriptor) (f : string) :
  foldl (λ d col, <[Field col := col]> d) d columns !! f = None ↔
  d !! f = None ∧ f ∉ Field <$> columns.
Proof.
  revert d. induction columns as [|c columns IH]; intros d; simpl.
  - rewrite elem_of_nil. tauto.
  - rewrite IH, elem_of_cons, lookup_insert_None. naive_solver.
Qed.

Lemma columns_fold_lookup_Some (columns : list ColumnDescriptor)
    (d : gmap string ColumnDescriptor) (f : string) (c : ColumnDescriptor) :
  foldl (λ d col, <[Field col := col]> d) d columns !! f = Some c →
  d !! f = Some c ∨ (c ∈ columns ∧ Field c = f).
Proof.
  revert d. induction columns as [|c' columns IH]; intros d; simpl; [by left|].
  intros [Hd|[Hin Hf]]%IH.
  - apply lookup_insert_Some in Hd as [[<- <-]|[_ Hd]]; [right|by left].
    split; [apply elem_of_cons; by left|done].
  - right. split; [apply elem_of_cons; by right|done].
Qed.

Lemma columns_dict_None (columns : list ColumnDescriptor) (f : string) :
  columns_dict columns !! f = None ↔ f ∉ Field <$> columns.
Proof.
  unfold columns_dict. rewrite columns_fold_lookup_None, lookup_empty. tauto.
Qed.

Lemma columns_dict_Some (columns : list ColumnDescriptor) (f : string)
    (c : ColumnDescriptor) :
  columns_dict columns !! f = Some c → c ∈ columns ∧ Field c = f.
Proof.
  unfold columns_dict. intros [Hd|H]%columns_fold_lookup_Some; [|done].
  by rewrite lookup_empty in Hd.
Qed.

Lemma report_fold (f : string → list ColumnDifference) (cols : list string)
    (acc : list ColumnDifference) (flag : bool) :
  foldl (λ '(table_column_report, table_has_differences) col,
           match f col with
           | [] => (table_column_report, table_has_differences)
           | records => (table_column_report ++ records, true)
           end) (acc, flag) cols =
  (acc ++ flat_map f cols, flag || bool_decide (flat_map f cols ≠ [])).
Proof.
  revert acc flag. induction cols as [|col cols IH]; intros acc flag; simpl.
  - by rewrite app_nil_r, orb_false_r.
  - destruct (f col) as [|r records] eqn:Hf; rewrite IH; simpl.
    + done.
    + rewrite <-(assoc_L (++)). f_equal. by rewrite orb_true_r.
Qed.

(** The column report of a table is the concatenation, over the sorted
    union of the column names, of what each column contributes; it does not
    depend on how the sets are visited. *)
Lemma compare_table_columns_eq (seed : HashSeed) (table : string)
    (columns1 columns2 : list ColumnDescriptor) :
  let d1 := columns_dict columns1 in
  let d2 := columns_dict columns2 in
  let records :=
    flat_map (λ col, compare_column table col (d1 !! col) (d2 !! col))
             (sorted (elements (dom d1 ∪ dom d2))) in
  compare_table_columns seed table columns1 columns2 =
    (records, bool_decide (records ≠ [])).
Proof.
  intros d1 d2 records. unfold compare_table_columns.
  rewrite report_fold, sorted_set_iter. done.
Qed.

Lemma differences_of_spec (col1 col2 : ColumnDescriptor) :
  differences_of col1 col2 = changed_aspects_spec col1 col2.
Proof.
  unfold differences_of, changed_aspects_spec. simpl.
  repeat case_decide; simpl; reflexivity.
Qed.

Lemma differences_of_same (col : ColumnDescriptor) : differences_of col col = [].
Proof. unfold differences_of. repeat case_decide; congruence. Qed.

Lemma differences_of_nonempty (col1 col2 : ColumnDescriptor) :
  differences_of col1 col2 ≠ [] →
  Type_ col1 ≠ Type_ col2 ∨ Null col1 ≠ Null col2 ∨ Key col1 ≠ Key col2 ∨
  Default col1 ≠ Default col2 ∨ Extra col1 ≠ Extra col2.
Proof.
  unfold differences_of. intros Hne.
  destruct (decide (Type_ col1 = Type_ col2)); [|by left].
  destruct (decide (Null col1 = Null col2)); [|by right; left].
  destruct (decide (Key col1 = Key col2)); [|by right; right; left].
  destruct (decide (Default col1 = Default col2)) as [Hd|];
    [|by right; right; right; left].
  destruct (decide (Extra col1 = Extra col2)); [|by right; right; right; right].
  exfalso. apply Hne. rewrite Hd. repeat case_decide; congruence.
Qed.

Lemma compare_column_name (table col : string)
    (col1 col2 : option ColumnDescriptor) (r : ColumnDifference) :
  r ∈ compare_column table col col1 col2 → cd_Table r = table ∧ cd_Column r = col.
Proof.
  unfold compare_column. intros Hr.
  destruct col1 as [c1|], col2 as [c2|]; try case_decide;
    first [ by apply elem_of_nil in Hr
          | by apply list_elem_of_singleton in Hr as -> ].
Qed.

(** The last case of [compare_column] does not arise in the loop. *)
Lemma compare_column_reachable (columns1 columns2 : list ColumnDescriptor)
    (col : string) :
  col ∈ dom (columns_dict columns1) ∪ dom (columns_dict columns2) →
  is_Some (columns_dict columns1 !! col) ∨ is_Some (columns_dict columns2 !! col).
Proof. rewrite elem_of_union, !elem_of_dom. tauto. Qed.

(** C8. A table whose column descriptors are the same on both instances
    (as lists, or merely as dictionaries keyed by column name)
    contributes no column record; in general a record for a column is
    emitted only when the column is absent on one side or the two
    descriptors differ in type, nullability, key role, default or extra. *)
Theorem identical_columns_no_records (seed : HashSeed) (table : string) :
  (∀ columns, compare_table_columns seed table columns columns = ([], false)) ∧
  (∀ columns1 columns2,
     columns_dict columns1 = columns_dict columns2 →
     compare_table_columns seed table columns1 columns2 = ([], false)) ∧
  (∀ conn1 conn2 st columns,
     show_columns conn1 table = Fetched columns →
     show_columns conn2 table = Fetched columns →
     column_reports (compare_columns_table seed conn1 conn2 st table) =
       column_reports st) ∧
  (∀ columns1 columns2 r,
     r ∈ (compare_table_columns seed table columns1 columns2).1 →
     (cd_Column r ∉ Field <$> columns1 ∨ cd_Column r ∉ Field <$> columns2) ∨
     ∃ col1 col2,
       col1 ∈ columns1 ∧ col2 ∈ columns2 ∧
       Field col1 = cd_Column r ∧ Field col2 = cd_Column r ∧
       (Type_ col1 ≠ Type_ col2 ∨ Null col1 ≠ Null col2 ∨ Key col1 ≠ Key col2 ∨
        Default col1 ≠ Default col2 ∨ Extra col1 ≠ Extra col2)).
Proof.
  assert (Hdict : ∀ columns1 columns2,
            columns_dict columns1 = columns_dict columns2 →
            compare_table_columns seed table columns1 columns2 = ([], false)).
  { intros columns1 columns2 Heq. rewrite compare_table_columns_eq, <-Heq.
    set (cols := sorted _). clearbody cols.
    assert (Hnil : flat_map
              (λ col, compare_column table col (columns_dict columns1 !! col)
                                     (columns_dict columns1 !! col)) cols = []).
    { induction cols as [|col cols IH]; simpl; [done|]. rewrite IH, app_nil_r.
      unfold compare_column. destruct (columns_dict columns1 !! col); [|done].
      rewrite differences_of_same. by case_decide. }
    rewrite Hnil. done. }
  assert (Hsame : ∀ columns,
            compare_table_columns seed table columns columns = ([], false))
    by (intros columns; by apply Hdict).
  split_and!; [done|done| |].
  - intros conn1 conn2 st columns H1 H2.
    unfold compare_columns_table, get_table_schema. rewrite H1, H2. simpl.
    by rewrite Hsame.
  - intros columns1 columns2 r. rewrite compare_table_columns_eq. simpl.
    rewrite list_elem_of_In, in_flat_map.
    intros (col & _ & Hr%list_elem_of_In).
    pose proof (compare_column_name _ _ _ _ _ Hr) as [_ ->].
    unfold compare_column in Hr.
    destruct (columns_dict columns1 !! col) as [c1|] eqn:H1;
      [|left; left; by apply columns_dict_None].
    destruct (columns_dict columns2 !! col) as [c2|] eqn:H2;
      [|left; right; by apply columns_dict_None].
    right. exists c1, c2.
    apply columns_dict_Some in H1 as [? ?], H2 as [? ?].
    case_decide as Hdiff; [|by apply elem_of_nil in Hr].
    split_and!; try done. by apply differences_of_nonempty.
Qed.

Lemma identical_columns_no_records_witness :
  column_reports
    (compare_columns_table seed_asc (sample_server "int" orders_1)
       (sample_server "int" orders_2) columns_init "a") = [] ∧
  ((cd_Column (different_column "users" "email" email_1 email_2
                 (differences_of email_1 email_2))
      ∉ Field <$> [email_1] ∨
    cd_Column (different_column "users" "email" email_1 email_2
                 (differences_of email_1 email_2))
      ∉ Field <$> [email_2]) ∨
   ∃ col1 col2,
     col1 ∈ [email_1] ∧ col2 ∈ [email_2] ∧
     Field col1 = "email" ∧ Field col2 = "email" ∧
     (Type_ col1 ≠ Type_ col2 ∨ Null col1 ≠ Null col2 ∨ Key col1 ≠ Key col2 ∨
      Default col1 ≠ Default col2 ∨ Extra col1 ≠ Extra col2)).
Proof.
  destruct (identical_columns_no_records seed_asc "users") as (_ & _ & _ & Hdiff).
  destruct (identical_columns_no_records seed_asc "a") as (_ & _ & Hstep & _).
  split.
  - apply (Hstep _ _ columns_init
             [{| Field := "id"; Type_ := "int"; Null := "NO"; Key := "PRI";
                 Default := None; Extra := EmptyString |}]); reflexivity.
  - apply (Hdiff [email_1] [email_2]). vm_compute. apply list_elem_of_here.
Defined.

Lemma sorted_singleton (x : string) : sorted [x] = [x].
Proof. reflexivity. Qed.

(** One descriptor per side, for the same column name. *)
Lemma compare_table_columns_pair (seed : HashSeed) (table : string)
    (col1 col2 : ColumnDescriptor) :
  Field col1 = Field col2 →
  (compare_table_columns seed table [col1] [col2]).1 =
    compare_column table (Field col1) (Some col1) (Some col2).
Proof.
  intros Hfield. rewrite compare_table_columns_eq. simpl.
  unfold columns_dict. simpl. rewrite <-Hfield.
  rewrite !dom_insert_L, dom_empty_L.
  replace ({[Field col1]} ∪ ∅ ∪ ({[Field col1]} ∪ ∅) : gset string)
    with ({[Field col1]} : gset string) by set_solver.
  rewrite elements_singleton, sorted_singleton. simpl.
  by rewrite !lookup_insert_eq, app_nil_r.
Qed.

Lemma differences_of_default_only (col1 col2 : ColumnDescriptor) :
  Type_ col1 = Type_ col2 → Null col1 = Null col2 → Key col1 = Key col2 →
  Extra col1 = Extra col2 →
  differences_of col1 col2 =
    if decide (str_default (Default col1) ≠ str_default (Default col2))
    then [aspect "Default" (str_default (Default col1)) (str_default (Default col2))]
    else [].
Proof.
  intros Htype Hnull Hkey Hextra. unfold differences_of.
  rewrite Htype, Hnull, Hkey, Hextra.
  destruct (decide (Type_ col2 ≠ Type_ col2)); [done|].
  destruct (decide (Null col2 ≠ Null col2)); [done|].
  destruct (decide (Key col2 ≠ Key col2)); [done|].
  destruct (decide (Extra col2 ≠ Extra col2)); [done|].
  by case_decide.
Qed.

(** C1 (as the code has it). Two descriptors of one column that differ only
    in their default yield no record exactly when the two defaults print
    alike under [str]: SQL NULL prints as the text [None], so it is taken
    for the textual default [None] and for no other text. *)
Theorem default_compared_by_str (seed : HashSeed) (table : string)
    (col1 col2 : ColumnDescriptor) :
  Field col1 = Field col2 → Type_ col1 = Type_ col2 → Null col1 = Null col2 →
  Key col1 = Key col2 → Extra col1 = Extra col2 →
  ((compare_table_columns seed table [col1] [col2]).1 = [] ↔
   str_default (Default col1) = str_default (Default col2)) ∧
  (str_default (Default col1) ≠ str_default (Default col2) →
   (compare_table_columns seed table [col1] [col2]).1 =
     [different_column table (Field col1) col1 col2
        [aspect "Default" (str_default (Default col1))
                          (str_default (Default col2))]]).
Proof.
  intros Hfield Htype Hnull Hkey Hextra.
  rewrite compare_table_columns_pair by done. unfold compare_column.
  rewrite differences_of_default_only by done.
  destruct (decide (str_default (Default col1) ≠ str_default (Default col2)))
    as [Hne|Heq%dec_stable].
  - rewrite decide_True by done. split; [split|]; done.
  - rewrite decide_False by (intros H; by apply H). split; [split|]; done.
Qed.

Lemma default_compared_by_str_witness :
  (compare_table_columns seed_asc "notes"
     [note_default None] [note_default (Some "None")]).1 = [] ∧
  (compare_table_columns seed_desc "notes"
     [note_default None] [note_default (Some "NULL")]).1 =
    [different_column "notes" "note" (note_default None)
       (note_default (Some "NULL")) ["Default(None vs NULL)"]].
Proof.
  split.
  - apply (default_compared_by_str seed_asc "notes" (note_default None)
             (note_default (Some "None"))); reflexivity.
  - apply (default_compared_by_str seed_desc "notes" (note_default None)
             (note_default (Some "NULL"))); try reflexivity.
    vm_compute. discriminate.
Defined.

(** C1 fails as stated: SQL NULL on one side and the text [NULL] on the
    other, everything else equal, is reported as a changed default. *)
Lemma default_null_encodings_counterexample :
  let col1 := note_default None in
  let col2 := note_default (Some "NULL") in
  Field col1 = Field col2 ∧ Type_ col1 = Type_ col2 ∧ Null col1 = Null col2 ∧
  Key col1 = Key col2 ∧ Extra col1 = Extra col2 ∧
  null_encoding (Default col1) ∧ null_encoding (Default col2) ∧
  (compare_table_columns seed_asc "notes" [col1] [col2]).1 =
    [{| cd_Table := "notes"; cd_Column := "note"; cd_Status := "Different";
        cd_Type_1 := "text"; cd_Null_1 := "YES"; cd_Key_1 := EmptyString;
        cd_Default_1 := None; cd_Extra_1 := EmptyString;
        cd_Type_2 := "text"; cd_Null_2 := "YES"; cd_Key_2 := EmptyString;
        cd_Default_2 := Some "NULL"; cd_Extra_2 := EmptyString;
        cd_Difference := "Default(None vs NULL)" |}] ∧
  (compare_table_columns seed_asc "notes" [col1] [col2]).1 ≠ [].
Proof.
  simpl. split_and!; try reflexivity.
  - by left.
  - by right.
  - vm_compute. discriminate.
Qed.

(** C4 (as the code has it). For a column present on both sides, a record
    is emitted exactly when some aspect differs (the default being compared
    through [str]); it is then the only record of the column, has status
    [Different], and its [Difference] text joins the differing aspects with
    a comma and a space, as [name(value1 vs value2)], in the order Type,
    Null, Key, Default, Extra.  The [email] column of the example yields
    [Type(varchar(255) vs varchar(100)), Null(YES vs NO)]. *)
Theorem changed_aspects_order (seed : HashSeed) (table col : string)
    (col1 col2 : ColumnDescriptor) :
  (changed_aspects_spec col1 col2 ≠ [] →
   ∃ r, compare_column table col (Some col1) (Some col2) = [r] ∧
        cd_Table r = table ∧ cd_Column r = col ∧ cd_Status r = "Different" ∧
        cd_Difference r = String.concat ", " (changed_aspects_spec col1 col2)) ∧
  (changed_aspects_spec col1 col2 = [] →
   compare_column table col (Some col1) (Some col2) = []) ∧
  (∃ r, (compare_table_columns seed "users" [email_1] [email_2]).1 = [r] ∧
        cd_Column r = "email" ∧
        cd_Difference r = "Type(varchar(255) vs varchar(100)), Null(YES vs NO)").
Proof.
  split_and!.
  - intros Hne. unfold compare_column. rewrite differences_of_spec.
    rewrite decide_True by done. eexists. split; [reflexivity|]. done.
  - intros Heq. unfold compare_column. rewrite differences_of_spec, Heq.
    by rewrite decide_False by (intros H; by apply H).
  - rewrite compare_table_columns_pair by reflexivity.
    eexists. split; [reflexivity|]. split; reflexivity.
Qed.

Lemma changed_aspects_order_witness :
  (∃ r, compare_column "users" "email" (Some email_1) (Some email_2) = [r] ∧
        cd_Table r = "users" ∧ cd_Column r = "email" ∧
        cd_Status r = "Different" ∧
        cd_Difference r = "Type(varchar(255) vs varchar(100)), Null(YES vs NO)") ∧
  compare_column "users" "email" (Some email_1) (Some email_1) = [].
Proof.
  split.
  - apply (changed_aspects_order seed_asc "users" "email" email_1 email_2).
    vm_compute. discriminate.
  - apply (changed_aspects_order seed_asc "users" "email" email_1 email_1).
    reflexivity.
Defined.

(** C4 fails as stated on its own example: the nullability aspect is
    labelled [Null], not [Nullable]. *)
Lemma changed_aspects_label_counterexample :
  ∃ r, (compare_table_columns seed_asc "users" [email_1] [email_2]).1 = [r] ∧
       cd_Difference r = "Type(varchar(255) vs varchar(100)), Null(YES vs NO)" ∧
       cd_Difference r ≠
         "Type(varchar(255) vs varchar(100)), Nullable(YES vs NO)".
Proof.
  eexists. split; [vm_compute; reflexivity|]. split; [reflexivity|].
  vm_compute. discriminate.
Qed.

(** ** The table loops: what one table adds *)

Lemma columns_prints_reports (out : list string) (st : ColumnsState) :
  column_reports (foldl (flip columns_print) st out) = column_reports st.
Proof. revert st. induction out as [|l out IH]; intros st; simpl; [done|by rewrite IH]. Qed.

Lemma columns_prints_stdout (out : list string) (st : ColumnsState) :
  columns_stdout (foldl (flip columns_print) st out) = columns_stdout st ++ out.
Proof.
  revert st. induction out as [|l out IH]; intros st; simpl.
  - by rewrite app_nil_r.
  - rewrite IH. simpl. by rewrite <-(assoc_L (++)).
Qed.

Lemma rows_prints_reports (out : list string) (st : RowsState) :
  data_reports (foldl (flip rows_print) st out) = data_reports st.
Proof. revert st. induction out as [|l out IH]; intros st; simpl; [done|by rewrite IH]. Qed.

Lemma rows_prints_stdout (out : list string) (st : RowsState) :
  rows_stdout (foldl (flip rows_print) st out) = rows_stdout st ++ out.
Proof.
  revert st. induction out as [|l out IH]; intros st; simpl.
  - by rewrite app_nil_r.
  - rewrite IH. simpl. by rewrite <-(assoc_L (++)).
Qed.

Lemma compare_columns_table_reports (seed : HashSeed) (conn1 conn2 : Connection)
    (st : ColumnsState) (table : string) :
  column_reports (compare_columns_table seed conn1 conn2 st table) =
    column_reports st ++ table_column_records seed conn1 conn2 table.
Proof.
  unfold compare_columns_table, table_column_records.
  destruct (get_table_schema conn1 table) as [out1 [columns1|]],
           (get_table_schema conn2 table) as [out2 [columns2|]]; simpl;
    rewrite ?columns_prints_reports; simpl; rewrite ?app_nil_r; try done.
  rewrite compare_table_columns_eq. simpl.
  case_bool_decide as Hrecords; simpl.
  - by rewrite ?columns_prints_reports.
  - rewrite Hrecords, app_nil_r. by rewrite ?columns_prints_reports.
Qed.

Lemma compare_columns_loop_reports (seed : HashSeed) (conn1 conn2 : Connection)
    (tables : list string) (st : ColumnsState) :
  column_reports (compare_columns_loop seed conn1 conn2 tables st) =
    column_reports st ++ flat_map (table_column_records seed conn1 conn2) tables.
Proof.
  unfold compare_columns_loop. revert st.
  induction tables as [|table tables IH]; intros st; simpl.
  - by rewrite app_nil_r.
  - by rewrite IH, compare_columns_table_reports, <-(assoc_L (++)).
Qed.

Lemma compare_columns_table_stdout (seed : HashSeed) (conn1 conn2 : Connection)
    (st : ColumnsState) (table : string) :
  ∃ lines, columns_stdout (compare_columns_table seed conn1 conn2 st table) =
             columns_stdout st ++ lines.
Proof.
  unfold compare_columns_table.
  destruct (get_table_schema conn1 table) as [out1 [columns1|]],
           (get_table_schema conn2 table) as [out2 [columns2|]]; simpl;
    try destruct (compare_table_columns seed table columns1 columns2) as [r []];
    simpl; rewrite !columns_prints_stdout; simpl;
    rewrite <-?(assoc_L (++)); eexists; reflexivity.
Qed.

Lemma compare_columns_loop_stdout (seed : HashSeed) (conn1 conn2 : Connection)
    (tables : list string) (st : ColumnsState) (line : string) :
  line ∈ columns_stdout st →
  line ∈ columns_stdout (compare_columns_loop seed conn1 conn2 tables st).
Proof.
  unfold compare_columns_loop. revert st.
  induction tables as [|table tables IH]; intros st Hin; simpl; [done|].
  apply IH. destruct (compare_columns_table_stdout seed conn1 conn2 st table)
    as [lines ->]. apply elem_of_app. by left.
Qed.

Lemma compare_row_data_table_reports (conn1 conn2 : Connection)
    (st : RowsState) (table : string) :
  data_reports (compare_row_data_table conn1 conn2 st table) =
    data_reports st ++ table_row_records conn1 conn2 table.
Proof.
  unfold table_row_records, compare_row_data_table.
  destruct (get_primary_keys conn1 table) as [out [|k pk_columns]]; simpl.
  { rewrite !rows_prints_reports. simpl. by rewrite app_nil_r. }
  destruct (get_table_data conn1 table) as [out1 [df1|]],
           (get_table_data conn2 table) as [out2 [df2|]]; simpl;
    rewrite ?rows_prints_reports; simpl; rewrite ?app_nil_r; try done.
  destruct (compare_table_rows table (k :: pk_columns) df1 df2)
    as [e|[report []]]; simpl;
    rewrite ?rows_prints_reports; simpl; rewrite ?app_nil_r; done.
Qed.

Lemma compare_row_data_loop_reports (conn1 conn2 : Connection)
    (tables : list string) (st : RowsState) :
  data_reports (compare_row_data_loop conn1 conn2 tables st) =
    data_reports st ++ flat_map (table_row_records conn1 conn2) tables.
Proof.
  unfold compare_row_data_loop. revert st.
  induction tables as [|table tables IH]; intros st; simpl.
  - by rewrite app_nil_r.
  - by rewrite IH, compare_row_data_table_reports, <-(assoc_L (++)).
Qed.

Lemma compare_row_data_table_stdout (conn1 conn2 : Connection)
    (st : RowsState) (table : string) :
  ∃ lines, rows_stdout (compare_row_data_table conn1 conn2 st table) =
             rows_stdout st ++ lines.
Proof.
  unfold compare_row_data_table.
  destruct (get_primary_keys conn1 table) as [out [|k pk_columns]]; simpl.
  { rewrite rows_prints_stdout. simpl. rewrite <-!(assoc_L (++)).
    eexists; reflexivity. }
  destruct (get_table_data conn1 table) as [out1 [df1|]],
           (get_table_data conn2 table) as [out2 [df2|]]; simpl;
    try destruct (compare_table_rows table (k :: pk_columns) df1 df2)
      as [e|[report []]];
    simpl; rewrite !rows_prints_stdout; simpl;
    rewrite <-?(assoc_L (++)); eexists; reflexivity.
Qed.

Lemma compare_row_data_loop_stdout (conn1 conn2 : Connection)
    (tables : list string) (st : RowsState) (line : string) :
  line ∈ rows_stdout st →
  line ∈ rows_stdout (compare_row_data_loop conn1 conn2 tables st).
Proof.
  unfold compare_row_data_loop. revert st.
  induction tables as [|table tables IH]; intros st Hin; simpl; [done|].
  apply IH. destruct (compare_row_data_table_stdout conn1 conn2 st table)
    as [lines ->]. apply elem_of_app. by left.
Qed.

(** A line printed while a table is processed is in the output of the whole
    stage, whatever comes before and after it. *)
Lemma compare_row_data_prints (seed : HashSeed) (report_dir : string)
    (conn1 conn2 : Connection) (common : gset string) (table line : string) :
  table ∈ common →
  (∀ st, line ∈ rows_stdout (compare_row_data_table conn1 conn2 st table)) →
  line ∈ rows_stdout (compare_row_data seed report_dir conn1 conn2 common).
Proof.
  intros Hin Hline.
  assert (Hloop : line ∈ rows_stdout
            (compare_row_data_loop conn1 conn2 (set_iter seed common) rows_init)).
  { assert (Hvisit : table ∈ set_iter seed common)
      by (rewrite set_iter_perm; by apply elem_of_elements).
    apply list_elem_of_split in Hvisit as (pre & post & ->).
    unfold compare_row_data_loop. rewrite foldl_app. simpl.
    apply compare_row_data_loop_stdout, Hline. }
  unfold compare_row_data.
  destruct (data_reports _); simpl; rewrite !elem_of_app; auto.
Qed.

Lemma compare_columns_prints (seed : HashSeed) (report_dir : string)
    (conn1 conn2 : Connection) (common : gset string) (table line : string) :
  table ∈ common →
  (∀ st, line ∈ columns_stdout (compare_columns_table seed conn1 conn2 st table)) →
  line ∈ columns_stdout (compare_columns seed report_dir conn1 conn2 common).
Proof.
  intros Hin Hline.
  assert (Hloop : line ∈ columns_stdout
            (compare_columns_loop seed conn1 conn2 (set_iter seed common)
               columns_init)).
  { assert (Hvisit : table ∈ set_iter seed common)
      by (rewrite set_iter_perm; by apply elem_of_elements).
    apply list_elem_of_split in Hvisit as (pre & post & ->).
    unfold compare_columns_loop. rewrite foldl_app. simpl.
    apply compare_columns_loop_stdout, Hline. }
  unfold compare_columns.
  destruct (column_reports _); simpl; rewrite !elem_of_app; auto.
Qed.

(** ** Stage 3: skipped tables and failures *)

Lemma warning_is_not_no_differences (table : string) :
  no_primary_key_warning table ≠ no_data_differences table.
Proof.
  unfold no_primary_key_warning, no_data_differences. intros Heq.
  vm_compute in Heq. discriminate.
Qed.

Lemma skipped_table_reports (conn1 conn2 : Connection) (table : string)
    (pre post : list string) (st : RowsState) :
  table_row_records conn1 conn2 table = [] →
  data_reports (compare_row_data_loop conn1 conn2 (pre ++ table :: post) st) =
    data_reports (compare_row_data_loop conn1 conn2 (pre ++ post) st).
Proof.
  intros Hnone. rewrite !compare_row_data_loop_reports, !flat_map_app. simpl.
  by rewrite Hnone.
Qed.

Lemma skipped_table_column_reports (seed : HashSeed) (conn1 conn2 : Connection)
    (table : string) (pre post : list string) (st : ColumnsState) :
  table_column_records seed conn1 conn2 table = [] →
  column_reports (compare_columns_loop seed conn1 conn2 (pre ++ table :: post) st) =
    column_reports (compare_columns_loop seed conn1 conn2 (pre ++ post) st).
Proof.
  intros Hnone. rewrite !compare_columns_loop_reports, !flat_map_app. simpl.
  by rewrite Hnone.
Qed.

(** C3 (as amended). A common table without a primary key makes the row
    comparator print, after the [Processing table] line, the line
    [Warning: Table <table> has no primary key. Skipping data comparison.]
    and nothing else; this line is not the line
    [No data differences found in table <table>] printed for a table
    without differences, and it is part of the output of the stage.  The
    table adds no record of any kind to the row report, and the records of
    the tables before and after it are those of a run without it. *)
Theorem no_primary_key_skipped (seed : HashSeed) (report_dir : string)
    (conn1 conn2 : Connection) (table : string) :
  show_keys_primary conn1 table = Fetched [] →
  let warning :=
    "Warning: Table " +:+ table +:+ " has no primary key. Skipping data comparison." in
  table_row_records conn1 conn2 table = [] ∧
  (∀ st, data_reports (compare_row_data_table conn1 conn2 st table) =
           data_reports st) ∧
  (∀ st, rows_stdout (compare_row_data_table conn1 conn2 st table) =
           rows_stdout st ++ [nl +:+ "Processing table: " +:+ table; warning]) ∧
  warning ≠ "No data differences found in table " +:+ table ∧
  (∀ pre post st,
     data_reports (compare_row_data_loop conn1 conn2 (pre ++ table :: post) st) =
       data_reports (compare_row_data_loop conn1 conn2 (pre ++ post) st)) ∧
  (∀ common, table ∈ common →
     warning ∈ rows_stdout (compare_row_data seed report_dir conn1 conn2 common)).
Proof.
  intros Hkeys warning.
  assert (Hwarning : warning = no_primary_key_warning table) by reflexivity.
  assert (Hnone : table_row_records conn1 conn2 table = []).
  { unfold table_row_records, compare_row_data_table, get_primary_keys.
    by rewrite Hkeys. }
  assert (Hout : ∀ st, rows_stdout (compare_row_data_table conn1 conn2 st table) =
            rows_stdout st ++ [nl +:+ "Processing table: " +:+ table; warning]).
  { intros st. unfold compare_row_data_table, get_primary_keys.
    rewrite Hkeys. simpl. by rewrite <-(assoc_L (++)). }
  split_and!; [done| |done| | |].
  - intros st. rewrite compare_row_data_table_reports, Hnone. apply app_nil_r.
  - rewrite Hwarning. apply warning_is_not_no_differences.
  - intros pre post st. by apply skipped_table_reports.
  - intros common Hin. apply (compare_row_data_prints _ _ _ _ _ table); [done|].
    intros st. rewrite Hout, !elem_of_app, !elem_of_cons. auto.
Qed.

Lemma no_primary_key_skipped_witness :
  table_row_records (sample_server "int" orders_1) (sample_server "int" orders_2)
    "logs" = [] ∧
  "Warning: Table logs has no primary key. Skipping data comparison." ∈
    rows_stdout (compare_row_data seed_asc "reports" (sample_server "int" orders_1)
                   (sample_server "int" orders_2) {["a"; "logs"]}).
Proof.
  destruct (no_primary_key_skipped seed_asc "reports"
              (sample_server "int" orders_1) (sample_server "int" orders_2)
              "logs" eq_refl) as (Hnone & _ & _ & _ & _ & Hout).
  split; [exact Hnone|]. apply Hout. set_solver.
Defined.

(** C3, the claim as written: no skip or warning record is emitted.  On a
    server whose table [logs] has no primary key the records of the run are
    those of the same server with [logs] keyed and compared without
    differences, so nothing in the reports tells the skipped table from a
    table without differences; only the printed lines differ. *)
Lemma skip_record_counterexample :
  let conn := sample_server "int" orders_1 in
  let keyed := with_primary_keys conn (λ _, Fetched ["id"]) in
  show_keys_primary conn "logs" = Fetched [] ∧
  row_records (run_comparison seed_asc "reports" conn conn) = [] ∧
  run_comparison seed_asc "reports" conn conn =
    run_comparison seed_asc "reports" keyed keyed ∧
  "No data differences found in table logs" ∈
    rows_stdout (compare_row_data seed_asc "reports" keyed keyed {["logs"]}) ∧
  "No data differences found in table logs" ∉
    rows_stdout (compare_row_data seed_asc "reports" conn conn {["logs"]}).
Proof.
  split_and!; [reflexivity|by vm_compute|by vm_compute|compute_done..].
Qed.

Lemma schema_failure_step (seed : HashSeed) (conn1 conn2 : Connection)
    (table err : string) :
  show_columns conn1 table = MySQLError err ∨
  show_columns conn2 table = MySQLError err →
  table_column_records seed conn1 conn2 table = [] ∧
  ∀ st,
    schema_error_line table err ∈
      columns_stdout (compare_columns_table seed conn1 conn2 st table) ∧
    columns_skipped_line table ∈
      columns_stdout (compare_columns_table seed conn1 conn2 st table).
Proof.
  intros Hfail.
  unfold table_column_records, compare_columns_table, get_table_schema.
  destruct Hfail as [Hfail|Hfail]; rewrite Hfail;
    [destruct (show_columns conn2 table) as [columns|err']
    |destruct (show_columns conn1 table) as [columns|err']]; simpl;
    (split; [done|]); intros st; simpl;
    rewrite !elem_of_app, !elem_of_cons;
    unfold schema_error_line, columns_skipped_line; auto 10.
Qed.

Lemma keys_failure_step (conn1 conn2 : Connection) (table err : string) :
  show_keys_primary conn1 table = MySQLError err →
  table_row_records conn1 conn2 table = [] ∧
  ∀ st,
    keys_error_line table err ∈
      rows_stdout (compare_row_data_table conn1 conn2 st table).
Proof.
  intros Hfail.
  unfold table_row_records, compare_row_data_table, get_primary_keys.
  rewrite Hfail. simpl. split; [done|]. intros st.
  rewrite !elem_of_app, !elem_of_cons. unfold keys_error_line. auto 10.
Qed.

Lemma data_failure_step (conn1 conn2 : Connection) (table err k : string)
    (pk_columns : list string) :
  show_keys_primary conn1 table = Fetched (k :: pk_columns) →
  select_all conn1 table = MySQLError err ∨
  select_all conn2 table = MySQLError err →
  table_row_records conn1 conn2 table = [] ∧
  ∀ st,
    data_error_line table err ∈
      rows_stdout (compare_row_data_table conn1 conn2 st table) ∧
    data_skipped_line table ∈
      rows_stdout (compare_row_data_table conn1 conn2 st table).
Proof.
  intros Hkeys Hfail.
  unfold table_row_records, compare_row_data_table, get_primary_keys,
    get_table_data.
  rewrite Hkeys. simpl.
  destruct Hfail as [Hfail|Hfail]; rewrite Hfail;
    [destruct (select_all conn2 table) as [df|err']
    |destruct (select_all conn1 table) as [df|err']]; simpl;
    (split; [done|]); intros st; simpl;
    rewrite !elem_of_app, !elem_of_cons;
    unfold data_error_line, data_skipped_line; auto 10.
Qed.

(** X17. When the query for the column metadata, the primary key or the
    rows of a table fails inside its [try] block, the failure is printed
    with the table's name and the text of the error, the table adds no
    record to the stage concerned, and the records of the stage are those
    of the other tables, in their order, as if the table had not been
    visited. *)
Theorem fetch_failure_skips_only_that_table (seed : HashSeed)
    (report_dir : string) (conn1 conn2 : Connection) (table err : string) :
  (show_columns conn1 table = MySQLError err ∨
   show_columns conn2 table = MySQLError err →
   (∀ pre post st,
      column_reports
        (compare_columns_loop seed conn1 conn2 (pre ++ table :: post) st) =
      column_reports (compare_columns_loop seed conn1 conn2 (pre ++ post) st)) ∧
   (∀ common, table ∈ common →
      "Error getting schema for table " +:+ table +:+ ": " +:+ err ∈
        columns_stdout (compare_columns seed report_dir conn1 conn2 common) ∧
      "Skipping column comparison for table " +:+ table +:+
        " due to previous errors" ∈
        columns_stdout (compare_columns seed report_dir conn1 conn2 common))) ∧
  (show_keys_primary conn1 table = MySQLError err →
   (∀ pre post st,
      data_reports (compare_row_data_loop conn1 conn2 (pre ++ table :: post) st) =
      data_reports (compare_row_data_loop conn1 conn2 (pre ++ post) st)) ∧
   (∀ common, table ∈ common →
      "Error getting primary keys for table " +:+ table +:+ ": " +:+ err ∈
        rows_stdout (compare_row_data seed report_dir conn1 conn2 common))) ∧
  (∀ k pk_columns,
     show_keys_primary conn1 table = Fetched (k :: pk_columns) →
     select_all conn1 table = MySQLError err ∨
     select_all conn2 table = MySQLError err →
     (∀ pre post st,
        data_reports
          (compare_row_data_loop conn1 conn2 (pre ++ table :: post) st) =
        data_reports (compare_row_data_loop conn1 conn2 (pre ++ post) st)) ∧
     (∀ common, table ∈ common →
        "Error fetching data from table " +:+ table +:+ ": " +:+ err ∈
          rows_stdout (compare_row_data seed report_dir conn1 conn2 common) ∧
        "Skipping data comparison for table " +:+ table +:+
          " due to previous errors" ∈
          rows_stdout (compare_row_data seed report_dir conn1 conn2 common))).
Proof.
  split_and!.
  - intros Hfail.
    destruct (schema_failure_step seed conn1 conn2 table err Hfail)
      as [Hnone Hout].
    split.
    + intros pre post st. by apply skipped_table_column_reports.
    + intros common Hin.
      split; apply (compare_columns_prints _ _ _ _ _ table); try done;
        intros st; apply Hout.
  - intros Hfail.
    destruct (keys_failure_step conn1 conn2 table err Hfail) as [Hnone Hout].
    split.
    + intros pre post st. by apply skipped_table_reports.
    + intros common Hin.
      by apply (compare_row_data_prints _ _ _ _ _ table).
  - intros k pk_columns Hkeys Hfail.
    destruct (data_failure_step conn1 conn2 table err k pk_columns Hkeys Hfail)
      as [Hnone Hout].
    split.
    + intros pre post st. by apply skipped_table_reports.
    + intros common Hin.
      split; apply (compare_row_data_prints _ _ _ _ _ table); try done;
        intros st; apply Hout.
Qed.

Lemma fetch_failure_skips_only_that_table_witness :
  let conn1 := sample_server "int" orders_1 in
  let conn2 := failing_on "b" (sample_server "bigint" orders_2) in
  column_reports (compare_columns_loop seed_asc conn1 conn2 (["a"] ++ "b" :: ["logs"])
                    columns_init) =
    column_reports (compare_columns_loop seed_asc conn1 conn2 (["a"] ++ ["logs"])
                      columns_init) ∧
  data_reports (compare_row_data_loop conn2 conn1 (["a"] ++ "b" :: ["logs"])
                  rows_init) =
    data_reports (compare_row_data_loop conn2 conn1 (["a"] ++ ["logs"]) rows_init) ∧
  "Skipping data comparison for table b due to previous errors" ∈
    rows_stdout (compare_row_data seed_asc "reports" conn1 conn2 {["a"; "b"]}).
Proof.
  intros conn1 conn2.
  destruct (fetch_failure_skips_only_that_table seed_asc "reports" conn1 conn2
              "b" "lost connection") as (Hcolumns & _ & Hdata).
  destruct (fetch_failure_skips_only_that_table seed_asc "reports" conn2 conn1
              "b" "lost connection") as (_ & Hkeys & _).
  split_and!.
  - apply Hcolumns. right. reflexivity.
  - apply Hkeys. reflexivity.
  - apply (Hdata "id" []); [reflexivity|right; reflexivity|set_solver].
Defined.

(** ** Stage 3: the join key *)

Lemma bind_inr {A B : Type} (m : Exception + A) (f : A → Exception + B) (b : B) :
  m ≫= f = inr b → ∃ a, m = inr a ∧ f a = inr b.
Proof. destruct m as [e|a]; simpl; [done|]. intros Hf. by exists a. Qed.

Lemma compare_table_rows_flag (table : string) (pk_columns : list string)
    (df1 df2 : DataFrame) (report : list RowDifference) (flag : bool) :
  compare_table_rows table pk_columns df1 df2 = inr (report, flag) →
  flag = bool_decide (report ≠ []).
Proof.
  unfold compare_table_rows. intros Hrun.
  repeat (apply bind_inr in Hrun as (? & _ & Hrun)); simpl in Hrun.
  by inversion Hrun.
Qed.

(** C10. The row comparator never reads the primary-key metadata of
    instance 2: its records and its printed output are the same whatever
    instance 2 declares as primary keys, so a difference between the two
    declarations is not reported by this stage; the join of a table is done
    on the key columns instance 1 declares. *)
Theorem row_comparison_uses_instance1_keys (seed : HashSeed)
    (report_dir : string) (conn1 conn2 : Connection)
    (keys2 : string → query_result (list string)) :
  (∀ common,
     compare_row_data seed report_dir conn1 (with_primary_keys conn2 keys2) common =
     compare_row_data seed report_dir conn1 conn2 common) ∧
  (∀ table k pk_columns df1 df2,
     show_keys_primary conn1 table = Fetched (k :: pk_columns) →
     select_all conn1 table = Fetched df1 →
     select_all conn2 table = Fetched df2 →
     table_row_records conn1 (with_primary_keys conn2 keys2) table =
       match compare_table_rows table (k :: pk_columns) df1 df2 with
       | inr (table_data_report, _) => table_data_report
       | inl _ => []
       end).
Proof.
  split; [done|].
  intros table k pk_columns df1 df2 Hkeys Hdf1 Hdf2.
  unfold table_row_records, compare_row_data_table, get_primary_keys,
    get_table_data.
  rewrite Hkeys. simpl. rewrite Hdf1, Hdf2. simpl.
  destruct (compare_table_rows table (k :: pk_columns) df1 df2)
    as [e|[report flag]] eqn:Hrun; [done|].
  apply compare_table_rows_flag in Hrun as ->.
  case_bool_decide as Hreport; simpl; [done|]. done.
Qed.

Lemma row_comparison_uses_instance1_keys_witness :
  let conn1 := sample_server "int" orders_1 in
  let conn2 := sample_server "int" orders_2 in
  table_row_records conn1
    (with_primary_keys conn2 (λ _, Fetched ["status"; "amount"])) "a" =
  [only_in_1_row "a" [PInt 2]; only_in_2_row "a" [PInt 3];
   different_values_row "a" [PInt 1] "status" (PStr "paid") (PStr "pending")].
Proof.
  intros conn1 conn2.
  destruct (row_comparison_uses_instance1_keys seed_asc "reports" conn1 conn2
              (λ _, Fetched ["status"; "amount"])) as [_ Hjoin].
  rewrite (Hjoin "a" "id" [] orders_1 orders_2 eq_refl eq_refl eq_refl).
  reflexivity.
Defined.

(** ** Visiting order of the common tables *)

(** The table-level records do not depend on the hash seed. *)
Lemma table_records_seed_independent (seed seed' : HashSeed)
    (report_dir : string) (conn1 conn2 : Connection) :
  table_records (run_comparison seed report_dir conn1 conn2) =
  table_records (run_comparison seed' report_dir conn1 conn2).
Proof.
  assert (Hrecords : ∀ s, table_records (run_comparison s report_dir conn1 conn2) =
                          (compare_schemas s conn1 conn2).1).
  { intros s. unfold run_comparison.
    destruct (compare_schemas s conn1 conn2) as [report common].
    by case_decide. }
  rewrite !Hrecords, !compare_schemas_report. unfold schema_report_of.
  by rewrite !(sorted_set_iter seed), !(sorted_set_iter seed').
Qed.

(** Nor do the records one table contributes to the column stage. *)
Lemma table_column_records_seed_independent (seed seed' : HashSeed)
    (conn1 conn2 : Connection) (table : string) :
  table_column_records seed conn1 conn2 table =
  table_column_records seed' conn1 conn2 table.
Proof.
  unfold table_column_records.
  destruct (get_table_schema conn1 table) as [out1 [columns1|]],
           (get_table_schema conn2 table) as [out2 [columns2|]]; try done.
  by rewrite !compare_table_columns_eq.
Qed.

Lemma compare_columns_reports (seed : HashSeed) (report_dir : string)
    (conn1 conn2 : Connection) (common : gset string) :
  column_reports (compare_columns seed report_dir conn1 conn2 common) =
  column_reports
    (compare_columns_loop seed conn1 conn2 (set_iter seed common) columns_init).
Proof.
  unfold compare_columns.
  destruct (column_reports (compare_columns_loop _ _ _ _ _)) eqn:Hreports;
    simpl; by rewrite Hreports.
Qed.

Lemma compare_row_data_reports (seed : HashSeed) (report_dir : string)
    (conn1 conn2 : Connection) (common : gset string) :
  data_reports (compare_row_data seed report_dir conn1 conn2 common) =
  data_reports (compare_row_data_loop conn1 conn2 (set_iter seed common) rows_init).
Proof.
  unfold compare_row_data.
  destruct (data_reports (compare_row_data_loop _ _ _ _)) eqn:Hreports;
    simpl; by rewrite Hreports.
Qed.

(** The column-level and row-level records are the per-table blocks laid
    out in the order in which the set of common tables is visited. *)
Lemma run_comparison_blocks (seed : HashSeed) (report_dir : string)
    (conn1 conn2 : Connection) :
  let common :=
    common_tables (list_to_set (get_tables conn1)) (list_to_set (get_tables conn2)) in
  column_records (run_comparison seed report_dir conn1 conn2) =
    flat_map (table_column_records seed conn1 conn2) (set_iter seed common) ∧
  row_records (run_comparison seed report_dir conn1 conn2) =
    flat_map (table_row_records conn1 conn2) (set_iter seed common).
Proof.
  intros common. unfold run_comparison.
  pose proof (compare_schemas_common seed conn1 conn2) as Hcommon.
  destruct (compare_schemas seed conn1 conn2) as [report common'].
  simpl in Hcommon. subst common'. fold common.
  case_decide as Hne; cbn [column_records row_records].
  - rewrite compare_columns_reports, compare_row_data_reports.
    by rewrite compare_columns_loop_reports, compare_row_data_loop_reports.
  - rewrite Hne, set_iter_empty. done.
Qed.

(** C2 does not hold of the code: the set returned by [compare_schemas] is
    iterated as it is, so two runs on the same servers whose string hashes
    lay the set out differently agree on the table-level records and list
    the per-table blocks of the column and row records in different orders. *)
Theorem table_visit_order_changes_reports :
  let conn1 := sample_server "int" orders_1 in
  let conn2 := sample_server "bigint" orders_2 in
  let run1 := run_comparison seed_asc "reports" conn1 conn2 in
  let run2 := run_comparison seed_desc "reports" conn1 conn2 in
  table_records run1 = table_records run2 ∧
  cd_Table <$> column_records run1 = ["a"; "b"; "logs"] ∧
  cd_Table <$> column_records run2 = ["logs"; "b"; "a"] ∧
  rd_Table <$> row_records run1 = ["a"; "a"; "a"; "b"; "b"; "b"] ∧
  rd_Table <$> row_records run2 = ["b"; "b"; "b"; "a"; "a"; "a"] ∧
  column_records run1 ≠ column_records run2 ∧
  row_records run1 ≠ row_records run2.
Proof.
  intros conn1 conn2 run1 run2.
  split_and!; try (vm_compute; reflexivity); vm_compute; discriminate.
Qed.

(** ** Stage 3: cell comparison of matched rows *)

Lemma mapM_inr {A B : Type} (f : A → Exception + B) (l : list A) (k : list B) :
  mapM f l = inr k ↔ Forall2 (λ x y, f x = inr y) l k.
Proof.
  revert k. induction l as [|x l IH]; intros k; simpl.
  - split.
    + intros [= <-]. constructor.
    + intros ->%Forall2_nil_inv_l. done.
  - split.
    + intros (y & Hy & Hrest)%bind_inr.
      apply bind_inr in Hrest as (k' & Hk' & [= <-]).
      constructor; [done|by apply IH].
    + intros (y & k' & Hy & Hk' & ->)%Forall2_cons_inv_l.
      apply IH in Hk'. rewrite Hy. simpl. rewrite Hk'. done.
Qed.

(** The element of the mask and the test of the inner loop agree. *)
Lemma mask_bit_cell_differs (v1 v2 : PyVal) : mask_bit v1 v2 = cell_differs v1 v2.
Proof. by destruct v1, v2. Qed.

Lemma skip_test_cell_differs (v1 v2 : PyVal) :
  py_eq v1 v2 || (isna v1 && isna v2) = negb (cell_differs v1 v2).
Proof. unfold cell_differs. by destruct (py_eq v1 v2), (isna v1), (isna v2). Qed.

Lemma frame_getitem_inr (columns : list string) (rows : list (list PyVal))
    (label : string) (series : list PyVal) :
  frame_getitem columns rows label = inr series →
  Forall2 (λ row v, getitem columns row label = inr v) rows series.
Proof.
  unfold frame_getitem. case_decide; [|done]. by intros ?%mapM_inr.
Qed.

Lemma zip_with_mask_bit (columns : list string) (rows : list (list PyVal))
    (col : string) (col1 col2 : list PyVal) :
  Forall2 (λ row v, getitem columns row (col +:+ "_1") = inr v) rows col1 →
  Forall2 (λ row v, getitem columns row (col +:+ "_2") = inr v) rows col2 →
  zip_with mask_bit col1 col2 = row_differs columns col <$> rows.
Proof.
  intros H1. revert col2. induction H1 as [|row v1 rows col1 Hv1 _ IH];
    intros col2 H2.
  - by apply Forall2_nil_inv_l in H2 as ->.
  - apply Forall2_cons_inv_l in H2 as (v2 & col2' & Hv2 & H2 & ->). simpl.
    f_equal; [|by apply IH].
    unfold row_differs. by rewrite Hv1, Hv2, mask_bit_cell_differs.
Qed.

(** The mask after the loop: one bit per matched row, set when some data
    column of the row differs; every data column is present in every row. *)
Lemma diff_mask_loop_inr (columns : list string) (in_both : list (list PyVal))
    (data_columns : list string) (diff_mask diff_mask' : Mask) (g : list PyVal → bool) :
  diff_mask_loop columns in_both data_columns diff_mask = inr diff_mask' →
  match diff_mask with
  | MaskFalse => ∀ row, g row = false
  | MaskSeries bits => bits = g <$> in_both
  end →
  match diff_mask' with
  | MaskFalse => data_columns = [] ∧ diff_mask = MaskFalse
  | MaskSeries bits =>
      bits = (λ row, g row || row_selected columns data_columns row) <$> in_both
  end ∧
  Forall (λ col, Forall (λ row,
            ∃ v1 v2, getitem columns row (col +:+ "_1") = inr v1 ∧
                     getitem columns row (col +:+ "_2") = inr v2) in_both)
         data_columns.
Proof.
  revert diff_mask g.
  induction data_columns as [|col data_columns IH]; intros diff_mask g; simpl.
  - intros [= <-] Hg. split; [|constructor].
    destruct diff_mask as [|bits]; [done|]. rewrite Hg.
    apply list_fmap_ext. intros _ row _. by rewrite orb_false_r.
  - intros (col1 & Hcol1 & Hrest)%bind_inr Hg.
    apply bind_inr in Hrest as (col2 & Hcol2 & Hrest).
    apply frame_getitem_inr in Hcol1, Hcol2.
    apply (IH _ (λ row, g row || row_differs columns col row)) in Hrest as [Hmask Hcells].
    + split.
      * destruct diff_mask' as [|bits];
          [destruct Hmask as [_ Hmask]; by destruct diff_mask|].
        rewrite Hmask.
        apply list_fmap_ext. intros _ row _. by rewrite orb_assoc.
      * constructor; [|done].
        clear -Hcol1 Hcol2. revert col2 Hcol2.
        induction Hcol1 as [|row v1 rows col1 Hv1 _ IHrows]; intros col2 Hcol2;
          [constructor|].
        apply Forall2_cons_inv_l in Hcol2 as (v2 & col2' & Hv2 & Hcol2 & ->).
        constructor; [by exists v1, v2|by eapply IHrows].
    + rewrite (zip_with_mask_bit columns in_both col col1 col2) by done.
      destruct diff_mask as [|bits]; simpl.
      * apply list_fmap_ext. intros _ row _. by rewrite Hg.
      * rewrite Hg, zip_with_fmap_l, zip_with_fmap_r, zip_with_diag. done.
Qed.

Lemma select_rows_fmap (in_both : list (list PyVal)) (g : list PyVal → bool) :
  (filter (λ rb, rb.2 = true) (zip in_both (g <$> in_both))).*1 =
  filter (λ row, g row = true) in_both.
Proof.
  induction in_both as [|row in_both IH]; [done|].
  cbn [fmap list_fmap zip zip_with]. rewrite !filter_cons. cbn [snd].
  destruct (decide (g row = true)); [rewrite fmap_cons; f_equal|]; exact IH.
Qed.

Lemma compare_cell_spec (table : string) (pk_columns columns : list string)
    (row : list PyVal) (col : string) (records : list RowDifference) :
  compare_cell table pk_columns columns row col = inr records →
  cell_emission_spec table pk_columns columns row col records.
Proof.
  unfold compare_cell, cell_emission_spec.
  intros (val1 & Hval1 & Hrest)%bind_inr.
  apply bind_inr in Hrest as (val2 & Hval2 & Hrest).
  exists val1, val2. split_and!; [done..|].
  rewrite skip_test_cell_differs in Hrest.
  destruct (cell_differs val1 val2); simpl in Hrest.
  - apply bind_inr in Hrest as (pk_values & Hpk & [= <-]). by exists pk_values.
  - by inversion Hrest.
Qed.

Lemma compare_cell_equal (table : string) (pk_columns columns : list string)
    (row : list PyVal) (col : string) (v1 v2 : PyVal) :
  getitem columns row (col +:+ "_1") = inr v1 →
  getitem columns row (col +:+ "_2") = inr v2 →
  cell_differs v1 v2 = false →
  compare_cell table pk_columns columns row col = inr [].
Proof.
  intros H1 H2 Hsame. unfold compare_cell. rewrite H1. simpl. rewrite H2. simpl.
  by rewrite skip_test_cell_differs, Hsame.
Qed.

(** A matched row whose mask bit is off passes through the inner loop
    without a record. *)
Lemma compare_row_unselected (table : string) (pk_columns columns : list string)
    (data_columns : list string) (row : list PyVal) :
  Forall (λ col, ∃ v1 v2, getitem columns row (col +:+ "_1") = inr v1 ∧
                          getitem columns row (col +:+ "_2") = inr v2)
         data_columns →
  row_selected columns data_columns row = false →
  mapM (compare_cell table pk_columns columns row) data_columns ≫=
    (λ per_col, mret (concat per_col)) = inr [].
Proof.
  intros Hcells Hmask.
  assert (Hall : mapM (compare_cell table pk_columns columns row) data_columns =
                 inr ((λ _, []) <$> data_columns)).
  { apply mapM_inr.
    induction Hcells as [|col data_columns (v1 & v2 & H1 & H2) _ IH]; simpl;
      [constructor|].
    simpl in Hmask. apply orb_false_elim in Hmask as [Hcol Hmask].
    constructor; [|by apply IH].
    apply (compare_cell_equal _ _ _ _ _ v1 v2); try done.
    unfold row_differs in Hcol. by rewrite H1, H2 in Hcol. }
  rewrite Hall. simpl. f_equal.
  clear. induction data_columns as [|col data_columns IH]; simpl; done.
Qed.

(** Selecting the rows by the mask first does not change what the loops
    over rows and columns append. *)
Lemma compare_cells_unfiltered (table : string) (pk_columns columns : list string)
    (data_columns : list string) (in_both : list (list PyVal))
    (different : list RowDifference) :
  Forall (λ row, Forall (λ col,
            ∃ v1 v2, getitem columns row (col +:+ "_1") = inr v1 ∧
                     getitem columns row (col +:+ "_2") = inr v2) data_columns)
         in_both →
  compare_cells table pk_columns columns data_columns
    (filter (λ row, row_selected columns data_columns row = true) in_both) =
    inr different →
  compare_cells table pk_columns columns data_columns in_both = inr different.
Proof.
  unfold compare_cells. intros Hcells. revert different.
  induction Hcells as [|row in_both Hrow _ IH]; intros different; [done|].
  rewrite filter_cons.
  destruct (decide (row_selected columns data_columns row = true))
    as [Hsel|Hsel%not_true_is_false].
  - simpl. intros (per_row & Hper_row & [= <-])%bind_inr.
    apply bind_inr in Hper_row as (r & Hr & Hper_row).
    apply bind_inr in Hper_row as (rs & Hrs & [= <-]).
    rewrite Hr. simpl.
    specialize (IH (concat rs)). rewrite Hrs in IH. simpl in IH.
    specialize (IH eq_refl). apply bind_inr in IH as (rs' & -> & [= Hconcat]).
    simpl. by rewrite Hconcat.
  - intros Hfiltered. specialize (IH _ Hfiltered).
    apply bind_inr in IH as (rs' & Hrs' & [= <-]).
    simpl. rewrite (compare_row_unselected _ _ _ _ _ Hrow Hsel). simpl.
    rewrite Hrs'. done.
Qed.

Lemma compare_cells_spec (table : string) (pk_columns columns : list string)
    (data_columns : list string) (rows : list (list PyVal))
    (different : list RowDifference) :
  compare_cells table pk_columns columns data_columns rows = inr different →
  ∃ emitted : list (list (list RowDifference)),
    different = concat ((λ per_row, concat per_row) <$> emitted) ∧
    Forall2 (λ row per_row,
               Forall2 (cell_emission_spec table pk_columns columns row)
                       data_columns per_row)
            rows emitted.
Proof.
  unfold compare_cells. revert different.
  induction rows as [|row rows IH]; intros different; simpl.
  - intros [= <-]. exists []. split; [done|constructor].
  - intros (per_row & Hper_row & [= <-])%bind_inr.
    apply bind_inr in Hper_row as (r & Hr & Hper_row).
    apply bind_inr in Hper_row as (rs & Hrs & [= <-]).
    apply bind_inr in Hr as (per_col & Hper_col & [= <-]).
    destruct (IH (concat rs)) as (emitted & Hconcat & Hemitted).
    { rewrite Hrs. done. }
    exists (per_col :: emitted). split.
    + simpl. by rewrite Hconcat.
    + constructor; [|done]. apply mapM_inr in Hper_col.
      eapply Forall2_impl; [exact Hper_col|].
      intros col records. apply compare_cell_spec.
Qed.

Lemma Forall_transpose {A B : Type} (P : A → B → Prop) (xs : list A) (ys : list B) :
  Forall (λ x, Forall (λ y, P x y) ys) xs → Forall (λ y, Forall (λ x, P x y) xs) ys.
Proof.
  intros H. apply Forall_forall. intros y Hy. apply Forall_forall. intros x Hx.
  rewrite Forall_forall in H. specialize (H x Hx).
  rewrite Forall_forall in H. by apply H.
Qed.

(** What a completed row comparison of a table has reported: the rows
    only in instance 1, the rows only in instance 2, and one slot per
    matched row and data column, filled as [cell_emission_spec] says. *)
Lemma compare_table_rows_spec (table : string) (pk_columns : list string)
    (df1 df2 : DataFrame) (report : list RowDifference) (flag : bool) :
  compare_table_rows table pk_columns df1 df2 = inr (report, flag) →
  (∀ val1 val2,
     cell_differs val1 val2 = true ↔
     py_eq val1 val2 = false ∧ ¬ (isna val1 = true ∧ isna val2 = true)) ∧
  ∃ merged only_in_instance1 only_in_instance2 emitted,
    pd_merge df1 df2 pk_columns = inr merged ∧
    mapM (λ row, getitems (mf_columns merged) row pk_columns)
         (rows_with left_only merged) = inr only_in_instance1 ∧
    mapM (λ row, getitems (mf_columns merged) row pk_columns)
         (rows_with right_only merged) = inr only_in_instance2 ∧
    report = (only_in_1_row table <$> only_in_instance1) ++
             (only_in_2_row table <$> only_in_instance2) ++
             concat ((λ per_row, concat per_row) <$> emitted) ∧
    Forall2 (λ row per_row,
               Forall2 (cell_emission_spec table pk_columns (mf_columns merged) row)
                       (filter (λ col, col ∉ pk_columns) (df_columns df1))
                       per_row)
            (rows_with both merged) emitted.
Proof.
  intros Hrun. split.
  { intros val1 val2. unfold cell_differs.
    destruct (py_eq val1 val2), (isna val1), (isna val2); simpl; naive_solver. }
  unfold compare_table_rows in Hrun.
  apply bind_inr in Hrun as (merged & Hmerged & Hrun).
  apply bind_inr in Hrun as (only1 & Honly1 & Hrun).
  apply bind_inr in Hrun as (only2 & Honly2 & Hrun).
  apply bind_inr in Hrun as (diff_mask & Hmask & Hrun).
  apply bind_inr in Hrun as (different_rows & Hselect & Hrun).
  apply bind_inr in Hrun as (different & Hdifferent & [= <- _]).
  apply (diff_mask_loop_inr _ _ _ _ _ (λ _, false)) in Hmask as [Hbits Hcells];
    [|done].
  destruct diff_mask as [|bits]; [done|]. simpl in Hselect.
  injection Hselect as <-. rewrite Hbits in Hdifferent.
  rewrite select_rows_fmap in Hdifferent. simpl in Hdifferent.
  apply Forall_transpose in Hcells.
  apply compare_cells_unfiltered in Hdifferent; [|done].
  apply compare_cells_spec in Hdifferent as (emitted & -> & Hemitted).
  exists merged, only1, only2, emitted. split_and!; try done.
  by rewrite <-(assoc_L (++)).
Qed.

(** ** Stage 3: when the row comparison of a table completes *)

Lemma mapM_inr_exists {A B : Type} (f : A → Exception + B) (l : list A) :
  Forall (λ x, ∃ y, f x = inr y) l → ∃ k, mapM f l = inr k.
Proof.
  induction 1 as [|x l [y Hy] _ [k Hk]]; simpl.
  - by exists [].
  - exists (y :: k). rewrite Hy. simpl. by rewrite Hk.
Qed.

Lemma getitem_inr (columns : list string) (row : list PyVal) (label : string) :
  length row = length columns → label ∈ columns →
  ∃ v, getitem columns row label = inr v.
Proof.
  unfold getitem. revert row.
  induction columns as [|c columns IH]; intros row Hlen Hin.
  - by apply elem_of_nil in Hin.
  - destruct row as [|v row]; [done|]. simpl in *.
    case_decide as Hc; [by exists v|].
    apply elem_of_cons in Hin as [->|Hin]; [done|].
    apply IH; [lia|done].
Qed.

Lemma getitems_inr (columns : list string) (row : list PyVal)
    (labels : list string) :
  length row = length columns → (∀ label, label ∈ labels → label ∈ columns) →
  ∃ vs, getitems columns row labels = inr vs.
Proof.
  intros Hlen Hin. apply mapM_inr_exists, Forall_forall.
  intros label Hlabel. by apply getitem_inr, Hin.
Qed.

Lemma non_key_cells_length (on columns : list string) (row : list PyVal) :
  length row = length columns →
  length (non_key_cells on columns row) = length (filter (λ c, c ∉ on) columns).
Proof.
  unfold non_key_cells. rewrite length_fmap. revert row.
  induction columns as [|c columns IH]; intros row Hlen; [done|].
  destruct row as [|v row]; [done|]. simpl in Hlen.
  cbn [zip zip_with]. rewrite !filter_cons. cbn [fst].
  destruct (decide (c ∉ on)); simpl; rewrite IH by lia; done.
Qed.

Lemma merged_columns_length (on columns1 columns2 : list string) :
  length (merged_columns on columns1 columns2) =
  length columns1 + length (filter (λ c, c ∉ on) columns2).
Proof. unfold merged_columns. by rewrite length_app, !length_fmap. Qed.

(** The frames that enter the join: same labels, same shape, same keys. *)
Lemma astype_row_length (to_float : string → bool) (columns : list string)
    (row : list PyVal) :
  length (astype_row to_float columns row) = length row.
Proof.
  revert row. induction columns as [|c columns IH]; intros [|v row]; simpl;
    try done. by rewrite IH.
Qed.

Lemma astype_row_id (columns : list string) (row : list PyVal) :
  astype_row (λ _, false) columns row = row.
Proof.
  revert row. induction columns as [|c columns IH]; intros [|v row]; simpl;
    try done. by rewrite IH.
Qed.

Lemma row_get_astype (to_float : string → bool) (columns : list string)
    (row : list PyVal) (label : string) :
  row_get columns (astype_row to_float columns row) label =
    (λ v, if to_float label then to_float64 v else v) <$> row_get columns row label.
Proof.
  revert row. induction columns as [|c columns IH]; intros [|v row]; simpl;
    try done.
  case_decide as Hc; [by subst|]. apply IH.
Qed.

Lemma key_of_astype (to_float : string → bool) (columns on : list string)
    (row : list PyVal) :
  (∀ k, k ∈ on → to_float k = false) →
  key_of columns on (astype_row to_float columns row) = key_of columns on row.
Proof.
  intros Hkeys. unfold key_of. apply list_fmap_ext. intros i k Hk.
  rewrite row_get_astype, Hkeys by (by eapply list_elem_of_lookup_2).
  by destruct (row_get columns row k).
Qed.

Lemma left_frame_columns (on : list string) (df1 df2 : DataFrame) :
  df_columns (left_frame on df1 df2) = df_columns df1.
Proof. unfold left_frame. by case_decide. Qed.

Lemma right_frame_columns (on : list string) (df1 df2 : DataFrame) :
  df_columns (right_frame on df1 df2) = df_columns df2.
Proof. unfold right_frame. by case_decide. Qed.

Lemma left_frame_rows (on : list string) (df1 df2 : DataFrame) :
  ∃ to_float, (∀ k, k ∈ on → to_float k = false) ∧
    df_rows (left_frame on df1 df2) =
      astype_row to_float (df_columns df1) <$> df_rows df1.
Proof.
  unfold left_frame. case_decide.
  - exists (λ _, false). split; [done|].
    rewrite <-(list_fmap_id (df_rows df1)) at 1.
    apply list_fmap_ext. intros i row _. by rewrite astype_row_id.
  - eexists. split; [|reflexivity]. intros k Hk. simpl.
    by rewrite bool_decide_false by (by intros []).
Qed.

Lemma right_frame_rows (on : list string) (df1 df2 : DataFrame) :
  ∃ to_float, (∀ k, k ∈ on → to_float k = false) ∧
    df_rows (right_frame on df1 df2) =
      astype_row to_float (df_columns df2) <$> df_rows df2.
Proof.
  unfold right_frame. case_decide.
  - exists (λ _, false). split; [done|].
    rewrite <-(list_fmap_id (df_rows df2)) at 1.
    apply list_fmap_ext. intros i row _. by rewrite astype_row_id.
  - eexists. split; [|reflexivity]. intros k Hk. simpl.
    by rewrite bool_decide_false by (by intros []).
Qed.

Lemma left_frame_rectangular (on : list string) (df1 df2 : DataFrame) :
  rectangular df1 → rectangular (left_frame on df1 df2).
Proof.
  unfold rectangular. rewrite left_frame_columns.
  destruct (left_frame_rows on df1 df2) as (to_float & _ & ->).
  rewrite Forall_fmap. intros Hdf. eapply Forall_impl; [exact Hdf|].
  intros row Hrow. simpl. by rewrite astype_row_length.
Qed.

Lemma right_frame_rectangular (on : list string) (df1 df2 : DataFrame) :
  rectangular df2 → rectangular (right_frame on df1 df2).
Proof.
  unfold rectangular. rewrite right_frame_columns.
  destruct (right_frame_rows on df1 df2) as (to_float & _ & ->).
  rewrite Forall_fmap. intros Hdf. eapply Forall_impl; [exact Hdf|].
  intros row Hrow. simpl. by rewrite astype_row_length.
Qed.

Lemma merged_rows_rectangular (on : list string) (df1 df2 : DataFrame) :
  rectangular df1 → rectangular df2 →
  Forall (λ row, length row.2 =
                 length (merged_columns on (df_columns df1) (df_columns df2)))
         (merged_rows on df1 df2).
Proof.
  intros Hdf1 Hdf2. unfold rectangular in *. rewrite Forall_forall in Hdf1, Hdf2.
  apply Forall_forall. intros [ind row] Hrow. simpl.
  rewrite merged_columns_length.
  unfold merged_rows in Hrow. apply elem_of_app in Hrow as [Hrow|Hrow].
  - apply list_elem_of_In, in_flat_map in Hrow as (l & Hl%list_elem_of_In & Hrow).
    apply list_elem_of_In in Hrow.
    destruct (filter _ (df_rows df2)) as [|r matches] eqn:Hmatches.
    + apply list_elem_of_singleton in Hrow. injection Hrow as _ ->.
      by rewrite length_app, length_fmap, Hdf1.
    + apply list_elem_of_fmap in Hrow as (r' & [= _ ->] & Hr').
      assert (Hr : r' ∈ df_rows df2).
      { rewrite <-Hmatches in Hr'. by apply list_elem_of_filter in Hr' as [_ ?]. }
      rewrite length_app, non_key_cells_length by by apply Hdf2.
      by rewrite Hdf1.
  - apply list_elem_of_fmap in Hrow as (r & [= _ ->] & Hr).
    apply list_elem_of_filter in Hr as [_ Hr].
    by rewrite length_app, length_fmap, non_key_cells_length by by apply Hdf2.
Qed.

Lemma rows_with_rectangular (ind : Indicator) (merged : MergedFrame) :
  Forall (λ row, length row.2 = length (mf_columns merged)) (mf_rows merged) →
  Forall (λ row, length row = length (mf_columns merged)) (rows_with ind merged).
Proof.
  intros Hrows. unfold rows_with. apply Forall_fmap.
  apply Forall_forall. intros row [_ Hrow]%list_elem_of_filter.
  rewrite Forall_forall in Hrows. by apply Hrows.
Qed.

Lemma key_in_merged_columns (on columns1 columns2 : list string) (k : string) :
  k ∈ on → k ∈ columns1 → k ∈ merged_columns on columns1 columns2.
Proof.
  intros Hon Hk. unfold merged_columns. apply elem_of_app. left.
  apply list_elem_of_fmap. exists k. split; [|done]. by rewrite decide_True.
Qed.

Lemma data_column_in_merged_columns (on columns1 columns2 : list string)
    (col : string) :
  col ∉ on → col ∈ columns1 → col ∈ columns2 →
  col +:+ "_1" ∈ merged_columns on columns1 columns2 ∧
  col +:+ "_2" ∈ merged_columns on columns1 columns2.
Proof.
  intros Hon H1 H2. unfold merged_columns. rewrite !elem_of_app. split.
  - left. apply list_elem_of_fmap. exists col. split; [|done].
    by rewrite decide_False, decide_True.
  - right. apply list_elem_of_fmap. exists col. split.
    + by rewrite decide_True.
    + by apply list_elem_of_filter.
Qed.

Lemma frame_getitem_runs (columns : list string) (rows : list (list PyVal))
    (label : string) :
  Forall (λ row, length row = length columns) rows → label ∈ columns →
  ∃ series, frame_getitem columns rows label = inr series.
Proof.
  intros Hrows Hlabel. unfold frame_getitem. rewrite decide_True by done.
  apply mapM_inr_exists. eapply Forall_impl; [exact Hrows|].
  intros row Hlen. by apply getitem_inr.
Qed.

Lemma diff_mask_loop_runs (columns : list string) (in_both : list (list PyVal))
    (data_columns : list string) (diff_mask : Mask) :
  Forall (λ row, length row = length columns) in_both →
  (∀ col, col ∈ data_columns →
     col +:+ "_1" ∈ columns ∧ col +:+ "_2" ∈ columns) →
  ∃ diff_mask', diff_mask_loop columns in_both data_columns diff_mask =
                  inr diff_mask'.
Proof.
  intros Hrows. revert diff_mask.
  induction data_columns as [|col data_columns IH]; intros diff_mask Hcols; simpl.
  - by exists diff_mask.
  - destruct (Hcols col) as [Hcol1 Hcol2]; [apply elem_of_cons; by left|].
    destruct (frame_getitem_runs columns in_both _ Hrows Hcol1) as [col1 ->].
    destruct (frame_getitem_runs columns in_both _ Hrows Hcol2) as [col2 ->].
    simpl. apply IH. intros c Hc. apply Hcols, elem_of_cons. by right.
Qed.

Lemma compare_cells_runs (table : string) (pk_columns columns : list string)
    (data_columns : list string) (rows : list (list PyVal)) :
  Forall (λ row, length row = length columns) rows →
  (∀ k, k ∈ pk_columns → k ∈ columns) →
  (∀ col, col ∈ data_columns →
     col +:+ "_1" ∈ columns ∧ col +:+ "_2" ∈ columns) →
  ∃ different,
    compare_cells table pk_columns columns data_columns rows = inr different.
Proof.
  intros Hrows Hkeys Hcols. unfold compare_cells.
  assert (Hall : ∃ per_row,
    mapM (λ row, per_col ← mapM (compare_cell table pk_columns columns row)
                               data_columns;
                 mret (concat per_col)) rows = inr per_row).
  { apply mapM_inr_exists. eapply Forall_impl; [exact Hrows|].
    intros row Hlen. simpl.
    assert (Hrow : ∃ per_col,
      mapM (compare_cell table pk_columns columns row) data_columns = inr per_col).
    { apply mapM_inr_exists, Forall_forall. intros col Hcol.
      destruct (Hcols col Hcol) as [Hcol1 Hcol2].
      destruct (getitem_inr columns row _ Hlen Hcol1) as [val1 Hval1].
      destruct (getitem_inr columns row _ Hlen Hcol2) as [val2 Hval2].
      destruct (getitems_inr columns row pk_columns Hlen Hkeys) as [pk Hpk].
      unfold compare_cell. rewrite Hval1. simpl. rewrite Hval2. simpl.
      destruct (py_eq val1 val2 || isna val1 && isna val2); [by eexists|].
      rewrite Hpk. by eexists. }
    destruct Hrow as [per_col ->]. by eexists. }
  destruct Hall as [per_row ->]. by eexists.
Qed.

(** With the key columns on both sides, every data column of instance 1
    also on instance 2, at least one data column, distinct labels after the
    join and rectangular frames, the [try] block of a table runs to its end. *)
Lemma compare_table_rows_runs (table : string) (pk_columns : list string)
    (df1 df2 : DataFrame) :
  Forall (λ k, k ∈ df_columns df1 ∧ k ∈ df_columns df2) pk_columns →
  Forall (λ col, col ∈ df_columns df2)
         (filter (λ col, col ∉ pk_columns) (df_columns df1)) →
  filter (λ col, col ∉ pk_columns) (df_columns df1) ≠ [] →
  NoDup (merged_columns pk_columns (df_columns df1) (df_columns df2) ++ ["_merge"]) →
  rectangular df1 → rectangular df2 →
  ∃ report flag, compare_table_rows table pk_columns df1 df2 = inr (report, flag).
Proof.
  intros Hkeys Hdata Hsome Hnodup Hdf1 Hdf2.
  rewrite Forall_forall in Hkeys. rewrite Forall_forall in Hdata.
  unfold compare_table_rows.
  set (columns := merged_columns pk_columns (df_columns df1) (df_columns df2)).
  set (merged := {| mf_columns := columns;
                    mf_rows := merged_rows pk_columns
                                 (left_frame pk_columns df1 df2)
                                 (right_frame pk_columns df1 df2) |}).
  assert (Hmerge : pd_merge df1 df2 pk_columns = inr merged).
  { unfold pd_merge.
    assert (Hnone : filter (λ k, k ∉ df_columns df1 ∨ k ∉ df_columns df2)
                           pk_columns = []).
    { apply elem_of_nil_inv. intros k [Hk Hin]%list_elem_of_filter.
      destruct (Hkeys k Hin). tauto. }
    rewrite Hnone. by rewrite decide_True. }
  rewrite Hmerge. simpl.
  pose proof (merged_rows_rectangular pk_columns _ _
                (left_frame_rectangular pk_columns df1 df2 Hdf1)
                (right_frame_rectangular pk_columns df1 df2 Hdf2)) as Hrect.
  rewrite left_frame_columns, right_frame_columns in Hrect.
  assert (Hpk : ∀ k, k ∈ pk_columns → k ∈ columns).
  { intros k Hk. apply key_in_merged_columns; [done|by apply Hkeys]. }
  assert (Hcols : ∀ col,
            col ∈ filter (λ col, col ∉ pk_columns) (df_columns df1) →
            col +:+ "_1" ∈ columns ∧ col +:+ "_2" ∈ columns).
  { intros col Hcol. pose proof (Hdata col Hcol) as Hin2.
    apply list_elem_of_filter in Hcol as [Hcol Hin].
    by apply data_column_in_merged_columns. }
  assert (Hwith : ∀ ind, Forall (λ row, length row = length columns)
                                (rows_with ind merged)).
  { intros ind. by apply (rows_with_rectangular ind merged). }
  assert (Honly : ∀ ind, ∃ keys,
            mapM (λ row, getitems columns row pk_columns) (rows_with ind merged) =
            inr keys).
  { intros ind. apply mapM_inr_exists. eapply Forall_impl; [apply Hwith|].
    intros row Hlen. by apply getitems_inr. }
  destruct (Honly left_only) as [only1 ->], (Honly right_only) as [only2 ->].
  simpl.
  destruct (diff_mask_loop_runs columns (rows_with both merged)
              (filter (λ col, col ∉ pk_columns) (df_columns df1)) MaskFalse
              (Hwith both) Hcols) as [diff_mask Hmask].
  rewrite Hmask. simpl.
  pose proof Hmask as Hbits.
  apply (diff_mask_loop_inr _ _ _ _ _ (λ _, false)) in Hbits as [Hbits _]; [|done].
  destruct diff_mask as [|bits].
  { by destruct Hbits as [Hempty _]. }
  simpl.
  destruct (compare_cells_runs table pk_columns columns
              (filter (λ col, col ∉ pk_columns) (df_columns df1))
              (filter (λ rb, rb.2 = true) (zip (rows_with both merged) bits)).*1)
    as [different ->]; try done.
  - rewrite Hbits, select_rows_fmap.
    apply Forall_forall. intros row [_ Hrow]%list_elem_of_filter.
    specialize (Hwith both). rewrite Forall_forall in Hwith. by apply Hwith.
  - simpl. by eexists _, _.
Qed.


(** * Further properties of the code *)

(** ** Stage 1: presence fields, failed listings, exchanged instances *)

Lemma elem_of_schema_report (seed : HashSeed) (tables1 tables2 : gset string)
    (r : TableDifference) :
  r ∈ schema_report_of seed tables1 tables2 ↔
  (r = missing_in_2 (td_Table r) ∧ td_Table r ∈ tables1 ∧ td_Table r ∉ tables2) ∨
  (r = missing_in_1 (td_Table r) ∧ td_Table r ∈ tables2 ∧ td_Table r ∉ tables1) ∨
  (r = present_in_both (td_Table r) ∧ td_Table r ∈ tables1 ∧ td_Table r ∈ tables2).
Proof.
  unfold schema_report_of. rewrite app_nil_l, !elem_of_app, !list_elem_of_fmap.
  setoid_rewrite elem_of_sorted_set_iter.
  unfold only_in_instance1, only_in_instance2, common_tables.
  setoid_rewrite elem_of_difference. setoid_rewrite elem_of_intersection.
  split.
  - intros [[(t & -> & ? & ?)|(t & -> & ? & ?)]|(t & -> & ? & ?)]; simpl; auto 10.
  - intros [(Hr & ? & ?)|[(Hr & ? & ?)|(Hr & ? & ?)]]; eauto 10.
Qed.

(** X1. Every table-level record tells the truth about its table: instance 1
    is shown [Present] exactly when the table is in instance 1's listing
    (and [Missing] otherwise), likewise for instance 2, and the difference
    is [None] exactly when both instances list the table. *)
Theorem schema_report_presence (seed : HashSeed) (conn1 conn2 : Connection)
    (r : TableDifference) :
  r ∈ (compare_schemas seed conn1 conn2).1 →
  (td_Instance_1 r = "Present" ↔ td_Table r ∈ get_tables conn1) ∧
  (td_Instance_1 r = "Missing" ↔ td_Table r ∉ get_tables conn1) ∧
  (td_Instance_2 r = "Present" ↔ td_Table r ∈ get_tables conn2) ∧
  (td_Instance_2 r = "Missing" ↔ td_Table r ∉ get_tables conn2) ∧
  (td_Difference r = "None" ↔
     td_Table r ∈ get_tables conn1 ∧ td_Table r ∈ get_tables conn2).
Proof.
  rewrite compare_schemas_report, elem_of_schema_report.
  rewrite !elem_of_list_to_set.
  intros [(-> & H1 & H2)|[(-> & H2 & H1)|(-> & H1 & H2)]]; simpl;
    split_and!; split; try done; tauto.
Qed.

Lemma schema_report_presence_witness :
  td_Instance_1 (missing_in_1 "products") = "Missing" ∧
  td_Instance_2 (missing_in_1 "products") = "Present".
Proof.
  destruct (schema_report_presence seed_asc
              (sample_on ["users"; "orders"]) (sample_on ["users"; "products"])
              (missing_in_1 "products")) as (_ & H1 & H2 & _).
  { vm_compute. set_solver. }
  split; [apply H1|apply H2]; vm_compute; set_solver.
Defined.

(** X2. A listing of tables that fails on instance 2 is taken for an empty
    database: every table of instance 1 is reported as missing in
    instance 2, in ascending order, and neither the column stage nor the row
    stage compares anything. *)
Theorem failed_listing_reports_all_missing (seed : HashSeed) (report_dir : string)
    (conn1 conn2 : Connection) (err : string) :
  show_tables conn2 = MySQLError err →
  run_comparison seed report_dir conn1 conn2 =
    {| table_records :=
         missing_in_2 <$> sorted (elements (list_to_set (get_tables conn1) : gset string));
       column_records := [];
       row_records := [] |}.
Proof.
  intros Hfail.
  assert (Hnil : get_tables conn2 = []) by (unfold get_tables; by rewrite Hfail).
  pose proof (compare_schemas_report seed conn1 conn2) as Hreport.
  pose proof (compare_schemas_common seed conn1 conn2) as Hcommon.
  unfold run_comparison.
  destruct (compare_schemas seed conn1 conn2) as [report common].
  simpl in Hreport, Hcommon. subst report common.
  rewrite Hnil, list_to_set_nil. unfold common_tables.
  set (tables1 := list_to_set (get_tables conn1) : gset string).
  assert (Hcap : tables1 ∩ ∅ = ∅) by set_solver.
  assert (Hleft : (∅ : gset string) ∖ tables1 = ∅) by set_solver.
  assert (Hright : tables1 ∖ ∅ = tables1) by set_solver.
  rewrite Hcap. rewrite decide_False by (intros H; by apply H).
  f_equal. unfold schema_report_of, only_in_instance1, only_in_instance2,
    common_tables.
  rewrite Hcap, Hleft, Hright, set_iter_empty, sorted_set_iter. simpl.
  by rewrite !app_nil_r.
Qed.

Lemma failed_listing_reports_all_missing_witness :
  run_comparison seed_desc "reports" (sample_on ["users"; "orders"])
    {| show_tables := MySQLError "gone away";
       show_columns := λ _, Fetched [];
       show_keys_primary := λ _, Fetched [];
       select_all := λ _, MySQLError "gone away" |} =
  {| table_records := [missing_in_2 "orders"; missing_in_2 "users"];
     column_records := []; row_records := [] |}.
Proof.
  rewrite (failed_listing_reports_all_missing seed_desc "reports" _ _ "gone away")
    by reflexivity.
  reflexivity.
Defined.

(** X3. Exchanging the two instances keeps the set of common tables and
    exchanges the first two blocks of the table-level report: what was
    missing in instance 2 is now missing in instance 1 and conversely. *)
Theorem compare_schemas_exchanged (seed : HashSeed) (conn1 conn2 : Connection) :
  (compare_schemas seed conn2 conn1).2 = (compare_schemas seed conn1 conn2).2 ∧
  ∃ block1 block2 block3,
    (compare_schemas seed conn1 conn2).1 =
      (missing_in_2 <$> block1) ++ (missing_in_1 <$> block2) ++
      (present_in_both <$> block3) ∧
    (compare_schemas seed conn2 conn1).1 =
      (missing_in_2 <$> block2) ++ (missing_in_1 <$> block1) ++
      (present_in_both <$> block3).
Proof.
  split.
  - rewrite !compare_schemas_common. unfold common_tables. set_solver.
  - set (tables1 := list_to_set (get_tables conn1) : gset string).
    set (tables2 := list_to_set (get_tables conn2) : gset string).
    exists (sorted (set_iter seed (only_in_instance1 tables1 tables2))),
           (sorted (set_iter seed (only_in_instance2 tables1 tables2))),
           (sorted (set_iter seed (common_tables tables1 tables2))).
    rewrite !compare_schemas_report. fold tables1 tables2.
    unfold schema_report_of. rewrite !app_nil_l, <-!(assoc_L (++)).
    split; [done|].
    unfold only_in_instance1, only_in_instance2, common_tables.
    assert (Hcomm : tables2 ∩ tables1 = tables1 ∩ tables2) by set_solver.
    by rewrite Hcomm.
Qed.

(** ** Stage 2: which columns are reported, and in which order *)

Lemma compare_column_cases (table col : string)
    (col1 col2 : option ColumnDescriptor) :
  compare_column table col col1 col2 = [] ∨
  ∃ r, compare_column table col col1 col2 = [r] ∧
       cd_Table r = table ∧ cd_Column r = col.
Proof.
  unfold compare_column.
  destruct col1 as [c1|], col2 as [c2|]; try case_decide; eauto.
Qed.

Lemma report_columns_sublist (f : string → list ColumnDifference)
    (cols : list string) :
  (∀ col, f col = [] ∨ ∃ r, f col = [r] ∧ cd_Column r = col) →
  sublist (cd_Column <$> flat_map f cols) cols.
Proof.
  intros Hf. induction cols as [|col cols IH]; simpl; [constructor|].
  destruct (Hf col) as [->|(r & -> & <-)]; simpl.
  - by apply sublist_cons.
  - by apply sublist_skip.
Qed.

Lemma StronglySorted_sublist {A : Type} (R : relation A) (l1 l2 : list A) :
  sublist l1 l2 → StronglySorted R l2 → StronglySorted R l1.
Proof.
  induction 1 as [|x l1 l2 Hsub IH|x l1 l2 Hsub IH]; intros Hsorted; [done|..].
  - apply StronglySorted_inv in Hsorted as [Hrest Hhead].
    constructor; [by apply IH|].
    apply Forall_forall. intros y Hy. rewrite Forall_forall in Hhead.
    apply Hhead. by eapply elem_of_sublist.
  - apply StronglySorted_inv in Hsorted as [Hrest _]. by apply IH.
Qed.

Lemma table_column_report_table (seed : HashSeed) (table : string)
    (columns1 columns2 : list ColumnDescriptor) (r : ColumnDifference) :
  r ∈ (compare_table_columns seed table columns1 columns2).1 → cd_Table r = table.
Proof.
  rewrite compare_table_columns_eq. simpl. intros Hr.
  apply list_elem_of_In, in_flat_map in Hr as (col & _ & Hr%list_elem_of_In).
  by apply compare_column_name in Hr as [? _].
Qed.

(** X4. The column records of one table carry the table's name and come in
    ascending order of column name, with no column reported twice. *)
Theorem table_column_report_sorted (seed : HashSeed) (table : string)
    (columns1 columns2 : list ColumnDescriptor) :
  let report := (compare_table_columns seed table columns1 columns2).1 in
  Forall (λ r, cd_Table r = table) report ∧
  StronglySorted String.le (cd_Column <$> report) ∧
  NoDup (cd_Column <$> report).
Proof.
  intros report. unfold report. rewrite compare_table_columns_eq. simpl.
  set (d1 := columns_dict columns1). set (d2 := columns_dict columns2).
  set (cols := sorted (elements (dom d1 ∪ dom d2))).
  assert (Hsub : sublist
            (cd_Column <$> flat_map
               (λ col, compare_column table col (d1 !! col) (d2 !! col)) cols) cols).
  { apply report_columns_sublist. intros col.
    destruct (compare_column_cases table col (d1 !! col) (d2 !! col))
      as [->|(r & -> & _ & ?)]; eauto. }
  split_and!.
  - apply Forall_forall. intros r Hr.
    apply (table_column_report_table seed table columns1 columns2).
    by rewrite compare_table_columns_eq.
  - eapply StronglySorted_sublist; [exact Hsub|apply sorted_StronglySorted].
  - eapply sublist_NoDup; [|exact Hsub].
    unfold cols. rewrite sorted_Permutation. apply NoDup_elements.
Qed.

(** With distinct column names, the dictionary of a schema holds each of
    its descriptors under its name. *)
Lemma columns_fold_lookup_NoDup (columns : list ColumnDescriptor)
    (d : gmap string ColumnDescriptor) (c : ColumnDescriptor) :
  NoDup (Field <$> columns) → c ∈ columns →
  foldl (λ d col, <[Field col := col]> d) d columns !! Field c = Some c.
Proof.
  revert d. induction columns as [|c' columns IH]; intros d Hnodup Hin.
  - by apply elem_of_nil in Hin.
  - simpl in *. apply NoDup_cons in Hnodup as [Hfresh Hnodup].
    apply elem_of_cons in Hin as [->|Hin]; [|by apply IH].
    destruct (foldl _ (<[Field c':=c']> d) columns !! Field c') as [x|] eqn:Hx.
    + apply columns_fold_lookup_Some in Hx as [Hx|[Hx Hf]].
      * by rewrite lookup_insert_eq in Hx.
      * exfalso. apply Hfresh. rewrite <-Hf. by apply list_elem_of_fmap_2.
    + apply columns_fold_lookup_None in Hx as [Hx _].
      by rewrite lookup_insert_eq in Hx.
Qed.

Lemma columns_dict_lookup_NoDup (columns : list ColumnDescriptor)
    (c : ColumnDescriptor) :
  NoDup (Field <$> columns) → c ∈ columns →
  columns_dict columns !! Field c = Some c.
Proof. apply columns_fold_lookup_NoDup. Qed.

Lemma elem_of_table_column_report (seed : HashSeed) (table : string)
    (columns1 columns2 : list ColumnDescriptor) (r : ColumnDifference) :
  r ∈ (compare_table_columns seed table columns1 columns2).1 ↔
  r ∈ compare_column table (cd_Column r)
        (columns_dict columns1 !! cd_Column r) (columns_dict columns2 !! cd_Column r).
Proof.
  rewrite compare_table_columns_eq. simpl.
  rewrite list_elem_of_In, in_flat_map. split.
  - intros (col & _ & Hr%list_elem_of_In).
    pose proof (compare_column_name _ _ _ _ _ Hr) as [_ ->]. done.
  - intros Hr. exists (cd_Column r). split; [|by apply list_elem_of_In].
    apply list_elem_of_In. rewrite sorted_Permutation, elem_of_elements.
    rewrite elem_of_union, !elem_of_dom.
    unfold compare_column in Hr.
    destruct (columns_dict columns1 !! cd_Column r); [left; eauto|].
    destruct (columns_dict columns2 !! cd_Column r); [right; eauto|].
    by apply elem_of_nil in Hr.
Qed.

(** X5. With distinct column names on each side, nothing that differs is
    left out of a table's column report: a column that only instance 1 has
    is reported with its attributes and [N/A] for instance 2, a column that
    only instance 2 has is reported the other way round, and a column of
    both whose aspects differ is reported as [Different] with both sets of
    attributes. *)
Theorem table_column_report_complete (seed : HashSeed) (table : string)
    (columns1 columns2 : list ColumnDescriptor) :
  NoDup (Field <$> columns1) → NoDup (Field <$> columns2) →
  let report := (compare_table_columns seed table columns1 columns2).1 in
  (∀ col1, col1 ∈ columns1 → Field col1 ∉ Field <$> columns2 →
     only_in_1_column table (Field col1) col1 ∈ report) ∧
  (∀ col2, col2 ∈ columns2 → Field col2 ∉ Field <$> columns1 →
     only_in_2_column table (Field col2) col2 ∈ report) ∧
  (∀ col1 col2, col1 ∈ columns1 → col2 ∈ columns2 → Field col1 = Field col2 →
     changed_aspects_spec col1 col2 ≠ [] →
     different_column table (Field col1) col1 col2 (changed_aspects_spec col1 col2)
       ∈ report).
Proof.
  intros Hnodup1 Hnodup2 report. unfold report. split_and!.
  - intros col1 Hin Hnot. apply elem_of_table_column_report. simpl.
    rewrite (columns_dict_lookup_NoDup columns1 col1) by done.
    apply columns_dict_None in Hnot. rewrite Hnot. simpl.
    apply list_elem_of_here.
  - intros col2 Hin Hnot. apply elem_of_table_column_report. simpl.
    rewrite (columns_dict_lookup_NoDup columns2 col2) by done.
    apply columns_dict_None in Hnot. rewrite Hnot. simpl.
    apply list_elem_of_here.
  - intros col1 col2 Hin1 Hin2 Hfield Hchanged.
    apply elem_of_table_column_report. simpl.
    rewrite (columns_dict_lookup_NoDup columns1 col1) by done.
    rewrite Hfield, (columns_dict_lookup_NoDup columns2 col2) by done. simpl.
    rewrite differences_of_spec, decide_True by done.
    rewrite <-Hfield. apply list_elem_of_here.
Qed.

Lemma table_column_report_complete_witness :
  only_in_1_column "users" "note" (note_default None) ∈
    (compare_table_columns seed_asc "users" [email_1; note_default None] [email_2]).1 ∧
  different_column "users" "email" email_1 email_2
      (changed_aspects_spec email_1 email_2) ∈
    (compare_table_columns seed_asc "users" [email_1; note_default None] [email_2]).1.
Proof.
  destruct (table_column_report_complete seed_asc "users"
              [email_1; note_default None] [email_2]) as (Honly & _ & Hdiff);
    [compute_done..|].
  split.
  - apply (Honly (note_default None)); compute_done.
  - apply (Hdiff email_1 email_2); compute_done.
Defined.

Lemma columns_dict_lookup_iff (columns : list ColumnDescriptor) (f : string)
    (c : ColumnDescriptor) :
  NoDup (Field <$> columns) →
  columns_dict columns !! f = Some c ↔ c ∈ columns ∧ Field c = f.
Proof.
  intros Hnodup. split; [apply columns_dict_Some|].
  intros [Hin <-]. by apply columns_dict_lookup_NoDup.
Qed.

Lemma columns_dict_Permutation (columns columns' : list ColumnDescriptor) :
  NoDup (Field <$> columns) → columns ≡ₚ columns' →
  columns_dict columns = columns_dict columns'.
Proof.
  intros Hnodup Hperm.
  assert (Hnodup' : NoDup (Field <$> columns')) by by rewrite <-Hperm.
  apply map_eq. intros f. apply option_eq. intros c.
  rewrite !columns_dict_lookup_iff by done. by rewrite Hperm.
Qed.

(** X6. The position of a column in its table is not compared: listing the
    same descriptors, with distinct names, in another order on either side
    gives the same column records. *)
Theorem column_order_is_ignored (seed : HashSeed) (table : string)
    (columns1 columns1' columns2 columns2' : list ColumnDescriptor) :
  NoDup (Field <$> columns1) → NoDup (Field <$> columns2) →
  columns1 ≡ₚ columns1' → columns2 ≡ₚ columns2' →
  compare_table_columns seed table columns1' columns2' =
  compare_table_columns seed table columns1 columns2.
Proof.
  intros Hnodup1 Hnodup2 Hperm1 Hperm2. rewrite !compare_table_columns_eq.
  by rewrite <-(columns_dict_Permutation columns1 columns1'),
             <-(columns_dict_Permutation columns2 columns2').
Qed.

Lemma column_order_is_ignored_witness :
  compare_table_columns seed_asc "users" [note_default None; email_1]
    [email_2; note_default None] =
  compare_table_columns seed_asc "users" [email_1; note_default None]
    [note_default None; email_2].
Proof.
  apply column_order_is_ignored; compute_done.
Defined.

Lemma differences_of_nil_iff (col1 col2 : ColumnDescriptor) :
  differences_of col1 col2 = [] ↔
  Type_ col1 = Type_ col2 ∧ Null col1 = Null col2 ∧ Key col1 = Key col2 ∧
  str_default (Default col1) = str_default (Default col2) ∧ Extra col1 = Extra col2.
Proof.
  unfold differences_of.
  destruct (decide (Type_ col1 ≠ Type_ col2)) as [?|?%dec_stable];
  destruct (decide (Null col1 ≠ Null col2)) as [?|?%dec_stable];
  destruct (decide (Key col1 ≠ Key col2)) as [?|?%dec_stable];
  destruct (decide (str_default (Default col1) ≠ str_default (Default col2)))
    as [?|?%dec_stable];
  destruct (decide (Extra col1 ≠ Extra col2)) as [?|?%dec_stable];
  simpl; split; try done; naive_solver.
Qed.

Lemma differences_of_nil_sym (col1 col2 : ColumnDescriptor) :
  differences_of col1 col2 = [] ↔ differences_of col2 col1 = [].
Proof. rewrite !differences_of_nil_iff. naive_solver. Qed.

Lemma Forall2_flat_map {A B C : Type} (R : B → C → Prop)
    (f : A → list B) (g : A → list C) (l : list A) :
  (∀ x, Forall2 R (f x) (g x)) → Forall2 R (flat_map f l) (flat_map g l).
Proof.
  intros Hfg. induction l as [|x l IH]; simpl; [constructor|].
  by apply Forall2_app.
Qed.

(** X7. The column stage treats the two instances alike: with the
    instances exchanged, a table's report lists the same columns in the same
    order, each with the mirrored status ([Only in Instance 1] for
    [Only in Instance 2] and conversely) and with the attribute fields of
    the two instances exchanged; only the wording of the difference text
    changes. *)
Theorem column_report_exchanged (seed : HashSeed) (table : string)
    (columns1 columns2 : list ColumnDescriptor) :
  Forall2 (λ r21 r12, ∃ difference, r21 = mirror_column_record r12 difference)
    (compare_table_columns seed table columns2 columns1).1
    (compare_table_columns seed table columns1 columns2).1.
Proof.
  rewrite !compare_table_columns_eq. simpl.
  set (d1 := columns_dict columns1). set (d2 := columns_dict columns2).
  assert (Hdom : dom d2 ∪ dom d1 = dom d1 ∪ dom d2) by set_solver.
  rewrite Hdom. apply Forall2_flat_map. intros col.
  unfold compare_column.
  destruct (d1 !! col) as [c1|], (d2 !! col) as [c2|]; try constructor.
  - destruct (decide (differences_of c1 c2 ≠ [])) as [Hd|Hd%dec_stable].
    + rewrite decide_True by (by rewrite differences_of_nil_sym).
      constructor; [|constructor]. by eexists.
    + rewrite decide_False; [constructor|].
      intros H. apply H. by apply differences_of_nil_sym.
  - by eexists.
  - constructor.
  - by eexists.
  - constructor.
Qed.

(** ** The table loops: counters and table names *)

Lemma compare_columns_table_count (seed : HashSeed) (conn1 conn2 : Connection)
    (st : ColumnsState) (table : string) :
  tables_with_column_differences (compare_columns_table seed conn1 conn2 st table) =
  tables_with_column_differences st +
  length (filter (λ t, table_column_records seed conn1 conn2 t ≠ []) [table]).
Proof.
  unfold compare_columns_table, table_column_records.
  assert (Hprints : ∀ out s, tables_with_column_differences
            (foldl (flip columns_print) s out) = tables_with_column_differences s).
  { intros out. induction out as [|l out IH]; intros s; simpl; [done|].
    by rewrite IH. }
  rewrite filter_cons, filter_nil.
  destruct (get_table_schema conn1 table) as [out1 [columns1|]],
           (get_table_schema conn2 table) as [out2 [columns2|]]; simpl;
    rewrite ?Hprints; simpl; try lia.
  rewrite compare_table_columns_eq. simpl.
  case_bool_decide as Hrecords; simpl.
  - rewrite decide_True by done. rewrite ?Hprints. simpl. lia.
  - rewrite decide_False by (intros H; by apply H).
    rewrite ?Hprints. simpl. lia.
Qed.

Lemma compare_columns_loop_count (seed : HashSeed) (conn1 conn2 : Connection)
    (tables : list string) (st : ColumnsState) :
  tables_with_column_differences (compare_columns_loop seed conn1 conn2 tables st) =
  tables_with_column_differences st +
  length (filter (λ t, table_column_records seed conn1 conn2 t ≠ []) tables).
Proof.
  unfold compare_columns_loop. revert st.
  induction tables as [|table tables IH]; intros st; [simpl; lia|].
  cbn [foldl]. rewrite IH, compare_columns_table_count.
  rewrite (filter_cons _ table tables), !filter_cons, filter_nil.
  destruct (decide (table_column_records seed conn1 conn2 table ≠ [])); simpl; lia.
Qed.

Lemma compare_row_data_table_count (conn1 conn2 : Connection)
    (st : RowsState) (table : string) :
  tables_with_data_differences (compare_row_data_table conn1 conn2 st table) =
  tables_with_data_differences st +
  length (filter (λ t, table_row_records conn1 conn2 t ≠ []) [table]).
Proof.
  unfold table_row_records, compare_row_data_table.
  assert (Hprints : ∀ out s, tables_with_data_differences
            (foldl (flip rows_print) s out) = tables_with_data_differences s).
  { intros out. induction out as [|l out IH]; intros s; simpl; [done|].
    by rewrite IH. }
  assert (Hreports : ∀ out s, data_reports (foldl (flip rows_print) s out) =
                              data_reports s) by apply rows_prints_reports.
  rewrite filter_cons, filter_nil.
  destruct (get_primary_keys conn1 table) as [out [|k pk_columns]]; simpl.
  { rewrite !Hprints, !Hreports. simpl. lia. }
  destruct (get_table_data conn1 table) as [out1 [df1|]],
           (get_table_data conn2 table) as [out2 [df2|]]; simpl;
    rewrite ?Hprints, ?Hreports; simpl; try lia.
  destruct (compare_table_rows table (k :: pk_columns) df1 df2)
    as [e|[report flag]] eqn:Hrun; simpl; rewrite ?Hprints, ?Hreports; simpl;
    try lia.
  apply compare_table_rows_flag in Hrun as ->.
  case_bool_decide as Hreport; simpl; rewrite ?Hprints, ?Hreports; simpl.
  - rewrite decide_True by done. simpl. lia.
  - rewrite ?decide_False by (intros H; by apply H). simpl. lia.
Qed.

Lemma compare_row_data_loop_count (conn1 conn2 : Connection)
    (tables : list string) (st : RowsState) :
  tables_with_data_differences (compare_row_data_loop conn1 conn2 tables st) =
  tables_with_data_differences st +
  length (filter (λ t, table_row_records conn1 conn2 t ≠ []) tables).
Proof.
  unfold compare_row_data_loop. revert st.
  induction tables as [|table tables IH]; intros st; [simpl; lia|].
  cbn [foldl]. rewrite IH, compare_row_data_table_count.
  rewrite (filter_cons _ table tables), !filter_cons, filter_nil.
  destruct (decide (table_row_records conn1 conn2 table ≠ [])); simpl; lia.
Qed.

(** X8. The counters printed at the end of the column stage and of the row
    stage are the number of common tables that contributed at least one
    record; they do not depend on the order in which the tables are
    visited, and a stage has no record exactly when its counter is zero. *)
Theorem difference_counters (seed : HashSeed) (report_dir : string)
    (conn1 conn2 : Connection) (common : gset string) :
  let columns := compare_columns seed report_dir conn1 conn2 common in
  let rows := compare_row_data seed report_dir conn1 conn2 common in
  tables_with_column_differences columns =
    length (filter (λ t, table_column_records seed conn1 conn2 t ≠ [])
                   (elements common)) ∧
  tables_with_data_differences rows =
    length (filter (λ t, table_row_records conn1 conn2 t ≠ []) (elements common)) ∧
  (column_reports columns = [] ↔ tables_with_column_differences columns = 0) ∧
  (data_reports rows = [] ↔ tables_with_data_differences rows = 0).
Proof.
  intros columns rows.
  assert (Hc : tables_with_column_differences columns =
               tables_with_column_differences
                 (compare_columns_loop seed conn1 conn2 (set_iter seed common)
                    columns_init)).
  { unfold columns, compare_columns.
    by destruct (column_reports (compare_columns_loop _ _ _ _ _)). }
  assert (Hr : tables_with_data_differences rows =
               tables_with_data_differences
                 (compare_row_data_loop conn1 conn2 (set_iter seed common) rows_init)).
  { unfold rows, compare_row_data.
    by destruct (data_reports (compare_row_data_loop _ _ _ _)). }
  rewrite Hc, Hr, compare_columns_loop_count, compare_row_data_loop_count.
  unfold columns, rows. rewrite compare_columns_reports, compare_row_data_reports.
  rewrite compare_columns_loop_reports, compare_row_data_loop_reports. simpl.
  assert (Hnil : ∀ {A} (f : string → list A) (l : list string),
            flat_map f l = [] ↔ length (filter (λ t, f t ≠ []) l) = 0).
  { intros A f l. induction l as [|t l IH]; simpl; [done|].
    rewrite filter_cons. destruct (decide (f t ≠ [])) as [Hne|Heq%dec_stable]; simpl.
    - split; [|done]. intros [? _]%app_eq_nil. done.
    - rewrite Heq. simpl. exact IH. }
  split_and!.
  - by rewrite (set_iter_perm seed common).
  - by rewrite (set_iter_perm seed common).
  - apply Hnil.
  - apply Hnil.
Qed.

(** ** Stage 3: the joined frame against the two frames *)

Lemma row_get_app (columns columns' : list string) (row row' : list PyVal)
    (label : string) :
  length row = length columns →
  row_get (columns ++ columns') (row ++ row') label =
    match row_get columns row label with
    | Some v => Some v
    | None => row_get columns' row' label
    end.
Proof.
  revert row. induction columns as [|c columns IH]; intros row Hlen.
  - by destruct row.
  - destruct row as [|v row]; [done|]. simpl in *.
    case_decide; [done|]. apply IH. lia.
Qed.

Lemma row_get_nil (columns : list string) (label : string) :
  row_get columns [] label = None.
Proof. by destruct columns. Qed.

Lemma row_get_not_in (columns : list string) (row : list PyVal) (label : string) :
  label ∉ columns → row_get columns row label = None.
Proof.
  revert row. induction columns as [|c columns IH]; intros row Hnot; [done|].
  destruct row as [|v row]; [done|]. simpl.
  apply not_elem_of_cons in Hnot as [Hne Hnot].
  rewrite decide_False by done. by apply IH.
Qed.

Lemma row_get_cell (columns : list string) (row : list PyVal) (label : string) :
  length row = length columns → label ∈ columns →
  row_get columns row label = Some (cell columns row label).
Proof.
  intros Hlen Hin. destruct (getitem_inr columns row label Hlen Hin) as [v Hv].
  unfold getitem in Hv. unfold cell.
  destruct (row_get columns row label); [done|discriminate].
Qed.

Lemma NoDup_fmap_inj_at {A B : Type} (f : A → B) (l : list A) (x y : A) :
  NoDup (f <$> l) → x ∈ l → y ∈ l → f x = f y → x = y.
Proof.
  induction l as [|z l IH]; intros Hnodup Hx Hy Heq; [by apply elem_of_nil in Hx|].
  simpl in Hnodup. apply NoDup_cons in Hnodup as [Hfresh Hnodup].
  apply elem_of_cons in Hx as [->|Hx], Hy as [->|Hy]; [done|..].
  - exfalso. apply Hfresh. rewrite Heq. by apply list_elem_of_fmap_2.
  - exfalso. apply Hfresh. rewrite <-Heq. by apply list_elem_of_fmap_2.
  - by apply IH.
Qed.

Lemma row_get_fmap (f : string → string) (columns : list string)
    (row : list PyVal) (c : string) :
  (∀ c', c' ∈ columns → f c' = f c → c' = c) →
  row_get (f <$> columns) row (f c) = row_get columns row c.
Proof.
  revert row. induction columns as [|c0 columns IH]; intros row Hinj; [done|].
  destruct row as [|v row]; [done|]. simpl.
  destruct (decide (c0 = c)) as [->|Hne].
  - by rewrite decide_True.
  - rewrite decide_False.
    + apply IH. intros c' Hc'. apply Hinj, elem_of_cons. by right.
    + intros Heq. apply Hne, Hinj; [apply elem_of_cons; by left|done].
Qed.

Lemma row_get_fmap_both (f : string → string) (g : string → PyVal)
    (columns : list string) (c : string) :
  c ∈ columns → (∀ c', c' ∈ columns → f c' = f c → c' = c) →
  row_get (f <$> columns) (g <$> columns) (f c) = Some (g c).
Proof.
  induction columns as [|c0 columns IH]; intros Hin Hinj;
    [by apply elem_of_nil in Hin|].
  simpl. destruct (decide (f c0 = f c)) as [Heq|Hne].
  - f_equal. f_equal. apply Hinj; [apply elem_of_cons; by left|done].
  - apply elem_of_cons in Hin as [->|Hin]; [done|].
    apply IH; [done|]. intros c' Hc'. apply Hinj, elem_of_cons. by right.
Qed.

Lemma row_get_non_key (on columns : list string) (row : list PyVal) (c : string) :
  c ∉ on →
  row_get (filter (λ c, c ∉ on) columns) (non_key_cells on columns row) c =
  row_get columns row c.
Proof.
  intros Hc. unfold non_key_cells. revert row.
  induction columns as [|c0 columns IH]; intros row; [done|].
  destruct row as [|v row].
  { simpl. by rewrite !row_get_nil. }
  cbn [zip zip_with]. rewrite !filter_cons. cbn [fst].
  destruct (decide (c0 ∉ on)) as [Hc0|Hc0%dec_stable]; simpl.
  - case_decide; [done|]. apply IH.
  - rewrite decide_False by (intros ->; done). apply IH.
Qed.

Lemma merged_columns_labels (on columns1 columns2 : list string) :
  merged_columns on columns1 columns2 =
    (left_label on columns2 <$> columns1) ++
    (right_label columns1 <$> filter (λ c, c ∉ on) columns2).
Proof. reflexivity. Qed.

Lemma merged_columns_parts (on columns1 columns2 : list string) :
  NoDup (merged_columns on columns1 columns2) →
  NoDup (left_label on columns2 <$> columns1) ∧
  NoDup (right_label columns1 <$> filter (λ c, c ∉ on) columns2) ∧
  ∀ x, x ∈ left_label on columns2 <$> columns1 →
       x ∉ right_label columns1 <$> filter (λ c, c ∉ on) columns2.
Proof.
  rewrite merged_columns_labels. intros (? & ? & ?)%NoDup_app. done.
Qed.

(** A key cell of a joined row whose left part is the instance 1 row. *)
Lemma merged_get_key (on columns1 columns2 : list string) (l x : list PyVal)
    (k : string) :
  NoDup (merged_columns on columns1 columns2) →
  length l = length columns1 → k ∈ on → k ∈ columns1 →
  getitem (merged_columns on columns1 columns2) (l ++ x) k =
    inr (cell columns1 l k).
Proof.
  intros Hnodup Hlen Hon Hin.
  destruct (merged_columns_parts _ _ _ Hnodup) as (Hnodup1 & _ & _).
  unfold getitem. rewrite merged_columns_labels.
  rewrite row_get_app by by rewrite length_fmap.
  assert (Hk : left_label on columns2 k = k) by (unfold left_label; by rewrite decide_True).
  rewrite <-Hk at 1. rewrite row_get_fmap.
  - by rewrite row_get_cell.
  - intros c' Hc' Heq. by apply (NoDup_fmap_inj_at (left_label on columns2) columns1).
Qed.

(** The instance 1 cell of a data column both frames have. *)
Lemma merged_get_1 (on columns1 columns2 : list string) (l x : list PyVal)
    (col : string) :
  NoDup (merged_columns on columns1 columns2) →
  length l = length columns1 → col ∉ on → col ∈ columns1 → col ∈ columns2 →
  getitem (merged_columns on columns1 columns2) (l ++ x) (col +:+ "_1") =
    inr (cell columns1 l col).
Proof.
  intros Hnodup Hlen Hon Hin1 Hin2.
  destruct (merged_columns_parts _ _ _ Hnodup) as (Hnodup1 & _ & _).
  unfold getitem. rewrite merged_columns_labels.
  rewrite row_get_app by by rewrite length_fmap.
  assert (Hcol : left_label on columns2 col = col +:+ "_1")
    by (unfold left_label; by rewrite decide_False, decide_True).
  rewrite <-Hcol, row_get_fmap.
  - by rewrite row_get_cell.
  - intros c' Hc' Heq. by apply (NoDup_fmap_inj_at (left_label on columns2) columns1).
Qed.

(** The instance 2 cell of a data column both frames have. *)
Lemma merged_get_2 (on columns1 columns2 : list string) (l r : list PyVal)
    (col : string) :
  NoDup (merged_columns on columns1 columns2) →
  length l = length columns1 → length r = length columns2 →
  col ∉ on → col ∈ columns1 → col ∈ columns2 →
  getitem (merged_columns on columns1 columns2)
          (l ++ non_key_cells on columns2 r) (col +:+ "_2") =
    inr (cell columns2 r col).
Proof.
  intros Hnodup Hlen1 Hlen2 Hon Hin1 Hin2.
  destruct (merged_columns_parts _ _ _ Hnodup) as (_ & Hnodup2 & Hdisjoint).
  unfold getitem. rewrite merged_columns_labels.
  rewrite row_get_app by by rewrite length_fmap.
  assert (Hcol : right_label columns1 col = col +:+ "_2") by (unfold right_label; by rewrite decide_True).
  assert (Hin : col ∈ filter (λ c, c ∉ on) columns2)
    by by apply list_elem_of_filter.
  rewrite <-Hcol.
  rewrite (row_get_not_in (left_label on columns2 <$> columns1)).
  - rewrite row_get_fmap, row_get_non_key by
      (try done; intros c' Hc' Heq;
       by apply (NoDup_fmap_inj_at (right_label columns1) (filter (λ c, c ∉ on) columns2))).
    by rewrite row_get_cell.
  - intros Hleft. apply (Hdisjoint _ Hleft). by apply list_elem_of_fmap_2.
Qed.

(** A key cell of a joined row that only instance 2 has. *)
Lemma merged_get_key_right (on columns1 columns2 : list string) (r : list PyVal)
    (k : string) :
  NoDup (merged_columns on columns1 columns2) →
  k ∈ on → k ∈ columns1 →
  getitem (merged_columns on columns1 columns2)
          (right_only_row on columns1 columns2 r).2 k =
    inr (cell columns2 r k).
Proof.
  intros Hnodup Hon Hin.
  destruct (merged_columns_parts _ _ _ Hnodup) as (Hnodup1 & _ & _).
  unfold getitem, right_only_row. rewrite merged_columns_labels. simpl.
  rewrite row_get_app by by rewrite !length_fmap.
  assert (Hk : left_label on columns2 k = k) by (unfold left_label; by rewrite decide_True).
  rewrite <-Hk at 1. rewrite row_get_fmap_both.
  - by rewrite decide_True.
  - done.
  - intros c' Hc' Heq. by apply (NoDup_fmap_inj_at (left_label on columns2) columns1).
Qed.

Lemma filter_fmap_all {A B : Type} (P : B → Prop) `{∀ y, Decision (P y)}
    (f : A → B) (l : list A) :
  (∀ x, P (f x)) → filter P (f <$> l) = f <$> l.
Proof.
  intros HP. induction l as [|x l IH]; [done|].
  rewrite fmap_cons, filter_cons, decide_True by done. by rewrite IH.
Qed.

Lemma filter_fmap_none {A B : Type} (P : B → Prop) `{∀ y, Decision (P y)}
    (f : A → B) (l : list A) :
  (∀ x, ¬ P (f x)) → filter P (f <$> l) = [].
Proof.
  intros HP. induction l as [|x l IH]; [done|].
  rewrite fmap_cons, filter_cons, decide_False by done. by rewrite IH.
Qed.

Lemma merged_left_part (on : list string) (df1 df2 : DataFrame)
    (rows : list (list PyVal)) :
  let part :=
    flat_map (λ l, match matches_of on df1 df2 l with
                   | [] => [left_only_row on (df_columns df2) l]
                   | matches => both_row on (df_columns df2) l <$> matches
                   end) rows in
  (filter (λ row, row.1 = left_only) part).*2 =
    ((λ l, (left_only_row on (df_columns df2) l).2) <$>
       filter (λ l, matches_of on df1 df2 l = []) rows) ∧
  filter (λ row, row.1 = right_only) part = [] ∧
  (filter (λ row, row.1 = both) part).*2 =
    ((λ lr, lr.1 ++ non_key_cells on (df_columns df2) lr.2) <$>
       flat_map (λ l, (λ r, (l, r)) <$> matches_of on df1 df2 l) rows).
Proof.
  induction rows as [|l rows (IH1 & IH2 & IH3)]; [done|].
  cbn [flat_map]. rewrite !filter_app, !fmap_app, IH1, IH2, IH3, filter_cons.
  destruct (matches_of on df1 df2 l) as [|r matches] eqn:Hmatches.
  - rewrite decide_True by done. done.
  - rewrite decide_False by done.
    rewrite (filter_fmap_none (λ row, row.1 = left_only)) by done.
    rewrite (filter_fmap_none (λ row, row.1 = right_only)) by done.
    rewrite (filter_fmap_all (λ row, row.1 = both)) by done.
    split_and!; try done.
    by rewrite <-!list_fmap_compose.
Qed.

(** The rows of the joined frame, by indicator. *)
Lemma rows_with_merged (on : list string) (df1 df2 : DataFrame)
    (columns : list string) :
  let merged := {| mf_columns := columns; mf_rows := merged_rows on df1 df2 |} in
  rows_with left_only merged =
    ((λ l, (left_only_row on (df_columns df2) l).2) <$> unmatched_left on df1 df2) ∧
  rows_with right_only merged =
    ((λ r, (right_only_row on (df_columns df1) (df_columns df2) r).2) <$>
       unmatched_right on df1 df2) ∧
  rows_with both merged =
    ((λ lr, lr.1 ++ non_key_cells on (df_columns df2) lr.2) <$>
       matched_pairs on df1 df2).
Proof.
  intros merged. unfold rows_with, merged. simpl. unfold merged_rows.
  destruct (merged_left_part on df1 df2 (df_rows df1)) as (H1 & H2 & H3).
  unfold matches_of in H1, H2, H3 at 1.
  rewrite !filter_app, !fmap_app, H1, H2, H3.
  fold (unmatched_right on df1 df2).
  rewrite (filter_fmap_none (λ row, row.1 = left_only)) by done.
  rewrite (filter_fmap_all (λ row, row.1 = right_only)) by done.
  rewrite (filter_fmap_none (λ row, row.1 = both)) by done.
  rewrite !fmap_nil, !app_nil_r, <-list_fmap_compose. done.
Qed.

Lemma mapM_fmap_inr {A B C : Type} (f : B → Exception + C) (h : A → B)
    (g : A → C) (l : list A) :
  (∀ x, x ∈ l → f (h x) = inr (g x)) → mapM f (h <$> l) = inr (g <$> l).
Proof.
  intros Hf. apply mapM_inr, Forall2_fmap, Forall_Forall2_diag.
  by apply Forall_forall.
Qed.

Lemma mapM_all_inr {A B : Type} (f : A → Exception + B) (g : A → B)
    (l : list A) :
  (∀ x, x ∈ l → f x = inr (g x)) → mapM f l = inr (g <$> l).
Proof.
  intros Hf. rewrite <-(list_fmap_id l) at 1. by apply mapM_fmap_inr.
Qed.

Lemma getitems_cells (columns : list string) (row : list PyVal)
    (labels : list string) (g : string → PyVal) :
  (∀ k, k ∈ labels → getitem columns row k = inr (g k)) →
  getitems columns row labels = inr (g <$> labels).
Proof.
  apply mapM_all_inr.
Qed.

Lemma concat_fmap_flat_map {A B : Type} (f : A → list B) (l : list A) :
  concat (f <$> l) = flat_map f l.
Proof. symmetry. apply flat_map_concat_map. Qed.

Lemma elem_of_matched_pairs (on : list string) (df1 df2 : DataFrame)
    (l r : list PyVal) :
  (l, r) ∈ matched_pairs on df1 df2 → l ∈ df_rows df1 ∧ r ∈ df_rows df2.
Proof.
  unfold matched_pairs. intros Hin.
  apply list_elem_of_In, in_flat_map in Hin as (l' & Hl & Hr).
  apply list_elem_of_In in Hl, Hr.
  apply list_elem_of_fmap in Hr as (r' & [= -> ->] & Hr).
  by apply list_elem_of_filter in Hr as [_ Hr].
Qed.

(** What a table's row comparison returns, when it returns, is the report
    by key. *)
Lemma compare_table_rows_report (table : string) (pk_columns : list string)
    (df1 df2 : DataFrame) (report : list RowDifference) (flag : bool) :
  Forall (λ k, k ∈ df_columns df1 ∧ k ∈ df_columns df2) pk_columns →
  Forall (λ col, col ∈ df_columns df2)
         (filter (λ col, col ∉ pk_columns) (df_columns df1)) →
  filter (λ col, col ∉ pk_columns) (df_columns df1) ≠ [] →
  NoDup (merged_columns pk_columns (df_columns df1) (df_columns df2) ++ ["_merge"]) →
  rectangular df1 → rectangular df2 →
  compare_table_rows table pk_columns df1 df2 = inr (report, flag) →
  report = row_report_by_key table pk_columns df1 df2.
Proof.
  intros Hkeys Hdata Hsome Hnodup Hdf1 Hdf2 Hrun.
  unfold compare_table_rows in Hrun.
  apply bind_inr in Hrun as (merged & Hmerged & Hrun).
  assert (merged =
            {| mf_columns :=
                 merged_columns pk_columns (df_columns df1) (df_columns df2);
               mf_rows := merged_rows pk_columns (left_frame pk_columns df1 df2)
                            (right_frame pk_columns df1 df2) |}) as ->.
  { unfold pd_merge in Hmerged.
    destruct (filter _ pk_columns); [|done].
    case_decide; [|done]. by injection Hmerged as <-. }
  unfold row_report_by_key.
  apply (left_frame_rectangular pk_columns df1 df2) in Hdf1.
  apply (right_frame_rectangular pk_columns df1 df2) in Hdf2.
  rewrite <-(left_frame_columns pk_columns df1 df2)
    in Hkeys, Hdata, Hsome, Hnodup, Hrun.
  rewrite <-(right_frame_columns pk_columns df1 df2)
    in Hkeys, Hdata, Hnodup, Hrun.
  revert Hkeys Hdata Hsome Hnodup Hrun Hdf1 Hdf2.
  generalize (right_frame pk_columns df1 df2).
  generalize (left_frame pk_columns df1 df2).
  clear. intros df1 df2 Hkeys Hdata Hsome Hnodup Hrun Hdf1 Hdf2.
  apply NoDup_app in Hnodup as (Hnodup & _ & _).
  rewrite Forall_forall in Hkeys. rewrite Forall_forall in Hdata.
  unfold rectangular in Hdf1, Hdf2. rewrite Forall_forall in Hdf1, Hdf2.
  set (columns1 := df_columns df1) in *. set (columns2 := df_columns df2) in *.
  set (data_columns := filter (λ col, col ∉ pk_columns) columns1) in *.
  set (columns := merged_columns pk_columns columns1 columns2) in *.
  assert (Hcol : ∀ col, col ∈ data_columns →
            (col ∉ pk_columns) ∧ col ∈ columns1 ∧ col ∈ columns2).
  { intros col Hcol. pose proof (Hdata col Hcol).
    by apply list_elem_of_filter in Hcol as [? ?]. }
  destruct (rows_with_merged pk_columns df1 df2 columns) as (Hleft & Hright & Hboth).
  cbn [mf_columns] in Hrun. rewrite Hleft, Hright, Hboth in Hrun.
  assert (Honly1 :
    mapM (λ row, getitems columns row pk_columns)
         ((λ l, (left_only_row pk_columns columns2 l).2) <$>
            unmatched_left pk_columns df1 df2) =
    inr ((λ l, cell columns1 l <$> pk_columns) <$>
           unmatched_left pk_columns df1 df2)).
  { apply mapM_fmap_inr. intros l [_ Hl]%list_elem_of_filter.
    apply getitems_cells. intros k Hk. simpl.
    apply merged_get_key; try done; [by apply Hdf1|by apply Hkeys]. }
  assert (Honly2 :
    mapM (λ row, getitems columns row pk_columns)
         ((λ r, (right_only_row pk_columns columns1 columns2 r).2) <$>
            unmatched_right pk_columns df1 df2) =
    inr ((λ r, cell columns2 r <$> pk_columns) <$>
           unmatched_right pk_columns df1 df2)).
  { apply mapM_fmap_inr. intros r [_ Hr]%list_elem_of_filter.
    apply getitems_cells. intros k Hk.
    apply merged_get_key_right; try done. by apply Hkeys. }
  fold columns1 columns2 in Hrun.
  apply bind_inr in Hrun as (only1 & H1 & Hrun).
  rewrite Honly1 in H1. injection H1 as <-.
  apply bind_inr in Hrun as (only2 & H2 & Hrun).
  rewrite Honly2 in H2. injection H2 as <-.
  apply bind_inr in Hrun as (diff_mask & Hmask & Hrun).
  apply bind_inr in Hrun as (different_rows & Hselect & Hrun).
  apply bind_inr in Hrun as (different & Hdifferent & [= <-]).
  apply (diff_mask_loop_inr _ _ _ _ _ (λ _, false)) in Hmask as [Hbits Hcells];
    [|done].
  destruct diff_mask as [|bits]; [done|]. simpl in Hselect.
  injection Hselect as <-. rewrite Hbits in Hdifferent.
  rewrite select_rows_fmap in Hdifferent. simpl in Hdifferent.
  apply Forall_transpose in Hcells.
  apply compare_cells_unfiltered in Hdifferent; [|done].
  unfold frames_report. fold columns1 columns2 data_columns.
  rewrite <-(assoc_L (++)). do 2 f_equal.
  unfold compare_cells in Hdifferent.
  rewrite (mapM_fmap_inr _ _
             (λ lr, flat_map (cell_report table pk_columns df1 df2 lr.1 lr.2)
                             data_columns)) in Hdifferent.
  - simpl in Hdifferent. injection Hdifferent as <-.
    rewrite concat_fmap_flat_map. apply flat_map_ext. by intros [l r].
  - intros [l r] [Hl Hr]%elem_of_matched_pairs. simpl.
    rewrite (mapM_all_inr _ (cell_report table pk_columns df1 df2 l r)).
    + simpl. by rewrite concat_fmap_flat_map.
    + intros col (Hnotkey & Hin1 & Hin2)%Hcol. simpl.
      unfold compare_cell, cell_report. fold columns1 columns2.
      unfold columns.
      rewrite (merged_get_1 pk_columns columns1 columns2 l _ col Hnodup
                 (Hdf1 l Hl) Hnotkey Hin1 Hin2). simpl.
      rewrite (merged_get_2 pk_columns columns1 columns2 l r col Hnodup
                 (Hdf1 l Hl) (Hdf2 r Hr) Hnotkey Hin1 Hin2). simpl.
      rewrite skip_test_cell_differs.
      destruct (cell_differs _ _); simpl; [|done].
      rewrite (getitems_cells _ _ _ (cell columns1 l)); [done|].
      intros k Hk. apply merged_get_key; try done; [by apply Hdf1|by apply Hkeys].
Qed.










Lemma cell_differs_refl (v : PyVal) : cell_differs v v = false.
Proof.
  destruct v; unfold cell_differs; simpl; try done;
    by rewrite bool_decide_true.
Qed.

Lemma flat_map_nil {A B : Type} (f : A → list B) (l : list A) :
  (∀ x, x ∈ l → f x = []) → flat_map f l = [].
Proof.
  induction l as [|x l IH]; intros Hf; [done|]. simpl.
  rewrite Hf by (apply elem_of_cons; by left). simpl.
  apply IH. intros y Hy. apply Hf, elem_of_cons. by right.
Qed.

(** X10. Two frames with the same columns and the same rows, in whatever
    order, whose keys are unique give no row record at all: no row is
    reported missing and no cell is reported different, [None] and [nan]
    cells included. *)
Theorem same_rows_no_records (table : string) (pk_columns : list string)
    (df1 df2 : DataFrame) :
  df_columns df2 = df_columns df1 → df_rows df2 ≡ₚ df_rows df1 →
  NoDup (key_of (df_columns df1) pk_columns <$> df_rows df1) →
  Forall (λ k, k ∈ df_columns df1) pk_columns →
  filter (λ col, col ∉ pk_columns) (df_columns df1) ≠ [] →
  NoDup (merged_columns pk_columns (df_columns df1) (df_columns df1) ++ ["_merge"]) →
  rectangular df1 →
  compare_table_rows table pk_columns df1 df2 = inr ([], false).
Proof.
  intros Hcolumns Hrows Hunique Hkeys Hsome Hnodup Hdf1.
  assert (Hdf2 : rectangular df2).
  { unfold rectangular in *. by rewrite Hcolumns, Hrows. }
  assert (Hkeys2 : Forall (λ k, k ∈ df_columns df1 ∧ k ∈ df_columns df2)
                           pk_columns).
  { rewrite Hcolumns. eapply Forall_impl; [exact Hkeys|]. by intros k Hk. }
  assert (Hdata : Forall (λ col, col ∈ df_columns df2)
                         (filter (λ col, col ∉ pk_columns) (df_columns df1))).
  { rewrite Hcolumns. apply Forall_forall.
    by intros col [_ Hcol]%list_elem_of_filter. }
  assert (Hnodup2 : NoDup (merged_columns pk_columns (df_columns df1)
                             (df_columns df2) ++ ["_merge"])).
  { by rewrite Hcolumns. }
  destruct (compare_table_rows_runs table pk_columns df1 df2)
    as (report & flag & Hrun); try done.
  rewrite Hrun. pose proof (compare_table_rows_flag _ _ _ _ _ _ Hrun) as ->.
  apply compare_table_rows_report in Hrun; try done. subst report.
  cut (row_report_by_key table pk_columns df1 df2 = []); [by intros ->|].
  assert (Hself : ∀ l, l ∈ df_rows df1 → l ∈ matches_of pk_columns df1 df2 l).
  { intros l Hl. apply list_elem_of_filter. split; [by rewrite Hcolumns|].
    by rewrite Hrows. }
  assert (Hleft : unmatched_left pk_columns df1 df2 = []).
  { apply elem_of_nil_inv. intros l [Hnone Hl]%list_elem_of_filter.
    specialize (Hself l Hl). rewrite Hnone in Hself. by apply elem_of_nil in Hself. }
  assert (Hright : unmatched_right pk_columns df1 df2 = []).
  { apply elem_of_nil_inv. intros r [Hall Hr]%list_elem_of_filter.
    rewrite Hrows in Hr. rewrite Forall_forall in Hall.
    apply (Hall r Hr). by rewrite Hcolumns. }
  unfold row_report_by_key, left_frame, right_frame.
  rewrite (decide_True _ _ Hright), (decide_True _ _ Hleft).
  unfold frames_report. rewrite Hleft, Hright. simpl.
  apply flat_map_nil. intros [l r] Hlr.
  assert (l = r) as ->.
  { unfold matched_pairs in Hlr.
    apply list_elem_of_In, in_flat_map in Hlr as (l' & Hl & Hr).
    apply list_elem_of_In in Hl, Hr.
    apply list_elem_of_fmap in Hr as (r' & [= -> ->] & Hr).
    apply list_elem_of_filter in Hr as [Hkey Hr].
    rewrite Hcolumns in Hkey. rewrite Hrows in Hr. symmetry.
    by apply (NoDup_fmap_inj_at (key_of (df_columns df1) pk_columns) (df_rows df1)). }
  apply flat_map_nil. intros col _. unfold cell_report.
  by rewrite Hcolumns, cell_differs_refl.
Qed.

Lemma same_rows_no_records_witness :
  compare_table_rows "orders" ["id"] orders_1
    {| df_columns := ["id"; "status"; "amount"];
       df_rows := [[PInt 2; PStr "new"; PInt 7]; [PInt 1; PStr "paid"; PNaN]] |} =
  inr ([], false).
Proof.
  apply same_rows_no_records; try compute_done.
Defined.

(** ** Stage 3: tables whose row comparison cannot run *)

Lemma string_app_cons (a : Ascii.ascii) (s1 s2 : string) :
  String a s1 +:+ s2 = String a (s1 +:+ s2).
Proof. reflexivity. Qed.

Lemma string_length_app (s1 s2 : string) :
  String.length (s1 +:+ s2) = String.length s1 + String.length s2.
Proof.
  induction s1 as [|a s1 IH]; [done|].
  rewrite string_app_cons. simpl. by rewrite IH.
Qed.

Lemma string_app_inj_r (s1 s2 t : string) : s1 +:+ t = s2 +:+ t → s1 = s2.
Proof.
  revert s2. induction s1 as [|a s1 IH]; intros [|b s2] Heq; [done|..].
  - apply (f_equal String.length) in Heq.
    rewrite !string_length_app in Heq. simpl in Heq. lia.
  - apply (f_equal String.length) in Heq.
    rewrite !string_length_app in Heq. simpl in Heq. lia.
  - rewrite !string_app_cons in Heq. injection Heq as -> Heq.
    f_equal. by apply IH.
Qed.

Lemma suffix_1_is_not_suffix_2 (s1 s2 : string) : s1 +:+ "_1" ≠ s2 +:+ "_2".
Proof.
  revert s2. induction s1 as [|a s1 IH]; intros s2 Heq.
  - destruct s2 as [|b [|c [|d s2]]]; try discriminate.
  - destruct s2 as [|b s2].
    + destruct s1 as [|c [|d s1]]; try discriminate.
    + rewrite !string_app_cons in Heq. injection Heq as _ Heq. by apply (IH s2).
Qed.

Lemma diff_mask_loop_labels (columns : list string) (in_both : list (list PyVal))
    (data_columns : list string) (diff_mask diff_mask' : Mask) :
  diff_mask_loop columns in_both data_columns diff_mask = inr diff_mask' →
  ∀ col, col ∈ data_columns → col +:+ "_1" ∈ columns ∧ col +:+ "_2" ∈ columns.
Proof.
  revert diff_mask. induction data_columns as [|c data_columns IH];
    intros diff_mask Hloop col Hcol; [by apply elem_of_nil in Hcol|].
  simpl in Hloop. apply bind_inr in Hloop as (col1 & Hcol1 & Hloop).
  apply bind_inr in Hloop as (col2 & Hcol2 & Hloop).
  apply elem_of_cons in Hcol as [->|Hcol]; [|by eapply IH].
  unfold frame_getitem in Hcol1, Hcol2. split.
  - by destruct (decide (c +:+ "_1" ∈ columns)).
  - by destruct (decide (c +:+ "_2" ∈ columns)).
Qed.

Lemma bind_inr_eq {A B : Type} (a : A) (f : A → Exception + B) :
  inr a ≫= f = f a.
Proof. reflexivity. Qed.

(** What an exception inside the [try] block leaves behind. *)
Lemma aborted_table (conn1 conn2 : Connection) (table k : string)
    (pk_columns : list string) (df1 df2 : DataFrame) (e : Exception) :
  show_keys_primary conn1 table = Fetched (k :: pk_columns) →
  select_all conn1 table = Fetched df1 → select_all conn2 table = Fetched df2 →
  compare_table_rows table (k :: pk_columns) df1 df2 = inl e →
  table_row_records conn1 conn2 table = [] ∧
  ∀ st, rows_stdout (compare_row_data_table conn1 conn2 st table) =
          rows_stdout st ++
          [nl +:+ "Processing table: " +:+ table;
           "Error comparing data in table " +:+ table +:+ ": " +:+ str_exception e].
Proof.
  intros Hkeys Hdf1 Hdf2 Hrun.
  unfold table_row_records, compare_row_data_table, get_primary_keys,
    get_table_data.
  rewrite Hkeys. simpl. rewrite Hdf1, Hdf2. simpl. rewrite Hrun. simpl.
  split; [done|]. intros st. by rewrite <-(assoc_L (++)).
Qed.

Lemma key_lookups_run (pk_columns : list string) (df1 df2 : DataFrame) :
  Forall (λ k, k ∈ df_columns df1 ∧ k ∈ df_columns df2) pk_columns →
  NoDup (merged_columns pk_columns (df_columns df1) (df_columns df2) ++ ["_merge"]) →
  rectangular df1 → rectangular df2 →
  let merged :=
    {| mf_columns := merged_columns pk_columns (df_columns df1) (df_columns df2);
       mf_rows := merged_rows pk_columns (left_frame pk_columns df1 df2)
                    (right_frame pk_columns df1 df2) |} in
  pd_merge df1 df2 pk_columns = inr merged ∧
  ∀ ind, ∃ keys,
    mapM (λ row, getitems (mf_columns merged) row pk_columns)
         (rows_with ind merged) = inr keys.
Proof.
  intros Hkeys Hnodup Hdf1 Hdf2 merged. rewrite Forall_forall in Hkeys. split.
  - unfold pd_merge.
    assert (Hnone : filter (λ k, k ∉ df_columns df1 ∨ k ∉ df_columns df2)
                           pk_columns = []).
    { apply elem_of_nil_inv. intros k [Hk Hin]%list_elem_of_filter.
      destruct (Hkeys k Hin). tauto. }
    rewrite Hnone. by rewrite decide_True.
  - intros ind. apply mapM_inr_exists.
    pose proof (merged_rows_rectangular pk_columns _ _
                  (left_frame_rectangular pk_columns df1 df2 Hdf1)
                  (right_frame_rectangular pk_columns df1 df2 Hdf2)) as Hrect.
    rewrite left_frame_columns, right_frame_columns in Hrect.
    eapply Forall_impl; [by apply (rows_with_rectangular ind merged)|].
    intros row Hlen. apply getitems_inr; [done|].
    intros k Hk. apply key_in_merged_columns; [done|by apply Hkeys].
Qed.

(** X11. A table all of whose columns belong to the primary key is never
    row-compared: the mask of differing rows is still the scalar [False]
    when it is used to select rows, the lookup raises, and the table
    contributes no row record, not even for rows that exist on one
    instance only; with well-formed frames the printed error text is
    [False]. *)
Theorem all_key_table_is_not_compared (conn1 conn2 : Connection)
    (table k : string) (pk_columns : list string) (df1 df2 : DataFrame) :
  show_keys_primary conn1 table = Fetched (k :: pk_columns) →
  select_all conn1 table = Fetched df1 → select_all conn2 table = Fetched df2 →
  Forall (λ col, col ∈ k :: pk_columns) (df_columns df1) →
  table_row_records conn1 conn2 table = [] ∧
  (Forall (λ k', k' ∈ df_columns df1 ∧ k' ∈ df_columns df2) (k :: pk_columns) →
   NoDup (merged_columns (k :: pk_columns) (df_columns df1) (df_columns df2) ++
          ["_merge"]) →
   rectangular df1 → rectangular df2 →
   ∀ st, rows_stdout (compare_row_data_table conn1 conn2 st table) =
           rows_stdout st ++
           [nl +:+ "Processing table: " +:+ table;
            "Error comparing data in table " +:+ table +:+ ": False"]).
Proof.
  intros Hkeys Hdf1 Hdf2 Hall.
  assert (Hnone : filter (λ col, col ∉ k :: pk_columns) (df_columns df1) = []).
  { apply elem_of_nil_inv. intros col [Hcol Hin]%list_elem_of_filter.
    rewrite Forall_forall in Hall. by apply Hcol, Hall. }
  split.
  - assert (Habort : ∃ e, compare_table_rows table (k :: pk_columns) df1 df2 = inl e).
    { unfold compare_table_rows. rewrite Hnone.
      destruct (pd_merge df1 df2 (k :: pk_columns)) as [e|merged]; [by exists e|].
      simpl.
      destruct (mapM _ (rows_with left_only merged)) as [e|only1]; [by exists e|].
      simpl.
      destruct (mapM _ (rows_with right_only merged)) as [e|only2]; [by exists e|].
      simpl. by eexists. }
    destruct Habort as [e Habort].
    by destruct (aborted_table conn1 conn2 table k pk_columns df1 df2 e).
  - intros Hpresent Hnodup Hrect1 Hrect2.
    destruct (key_lookups_run (k :: pk_columns) df1 df2 Hpresent Hnodup Hrect1 Hrect2)
      as [Hmerge Honly].
    assert (Habort : compare_table_rows table (k :: pk_columns) df1 df2 =
                     inl (KeyError "False")).
    { unfold compare_table_rows. rewrite Hmerge, Hnone.
      rewrite bind_inr_eq. cbv beta zeta.
      destruct (Honly left_only) as [only1 ->], (Honly right_only) as [only2 ->].
      done. }
    by destruct (aborted_table conn1 conn2 table k pk_columns df1 df2 _
                   Hkeys Hdf1 Hdf2 Habort).
Qed.

Lemma all_key_table_is_not_compared_witness :
  let links_1 := {| df_columns := ["a"; "b"]; df_rows := [[PInt 1; PInt 2]] |} in
  let links_2 := {| df_columns := ["a"; "b"]; df_rows := [[PInt 1; PInt 3]] |} in
  let server df :=
    {| show_tables := Fetched ["links"]; show_columns := λ _, Fetched [];
       show_keys_primary := λ _, Fetched ["a"; "b"];
       select_all := λ _, Fetched df |} in
  table_row_records (server links_1) (server links_2) "links" = [] ∧
  rows_stdout (compare_row_data_table (server links_1) (server links_2)
                 rows_init "links") =
    rows_stdout rows_init ++
    [nl +:+ "Processing table: links"; "Error comparing data in table links: False"].
Proof.
  intros links_1 links_2 server.
  destruct (all_key_table_is_not_compared (server links_1) (server links_2)
              "links" "a" ["b"] links_1 links_2) as [Hnone Hout];
    [reflexivity|reflexivity|reflexivity|compute_done|].
  split; [exact Hnone|]. apply Hout; compute_done.
Defined.

(** X12. When instance 2's frame lacks a key column, or lacks a data
    column of instance 1 (and no column carries that name with the suffix
    [_1]), the row comparison of the table raises inside the [try] block:
    the table contributes no row record, whatever its rows are. *)
Theorem structure_drift_is_not_compared (conn1 conn2 : Connection)
    (table k : string) (pk_columns : list string) (df1 df2 : DataFrame) :
  show_keys_primary conn1 table = Fetched (k :: pk_columns) →
  select_all conn1 table = Fetched df1 → select_all conn2 table = Fetched df2 →
  (∃ key, key ∈ k :: pk_columns ∧ key ∉ df_columns df2) ∨
  (∃ col, col ∈ df_columns df1 ∧ (col ∉ k :: pk_columns) ∧
          (col ∉ df_columns df2) ∧ (col +:+ "_1" ∉ df_columns df1) ∧
          (col +:+ "_1" ∉ df_columns df2)) →
  (∃ e, compare_table_rows table (k :: pk_columns) df1 df2 = inl e) ∧
  table_row_records conn1 conn2 table = [].
Proof.
  intros Hkeys Hdf1 Hdf2 Hdrift.
  assert (Habort : ∃ e, compare_table_rows table (k :: pk_columns) df1 df2 = inl e).
  { destruct (compare_table_rows table (k :: pk_columns) df1 df2)
      as [e|[report flag]] eqn:Hrun; [by exists e|]. exfalso.
    unfold compare_table_rows in Hrun.
    apply bind_inr in Hrun as (merged & Hmerged & Hrun).
    unfold pd_merge in Hmerged.
    destruct (filter _ (k :: pk_columns)) as [|k' ks] eqn:Hfilter; [|done].
    destruct Hdrift as [(key & Hkey & Hmissing)|(col & Hin & Hnotkey & Hnot2 & Hl1 & Hl2)].
    - assert (Hk : key ∈ filter (λ k0, k0 ∉ df_columns df1 ∨ k0 ∉ df_columns df2)
                                (k :: pk_columns))
        by (apply list_elem_of_filter; auto).
      rewrite Hfilter in Hk. by apply elem_of_nil in Hk.
    - case_decide; [|done]. injection Hmerged as <-. simpl in Hrun.
      apply bind_inr in Hrun as (only1 & _ & Hrun).
      apply bind_inr in Hrun as (only2 & _ & Hrun).
      apply bind_inr in Hrun as (diff_mask & Hmask & _).
      apply diff_mask_loop_labels with (col := col) in Hmask as [Hlabel _];
        [|by apply list_elem_of_filter].
      rewrite merged_columns_labels, elem_of_app, !list_elem_of_fmap in Hlabel.
      destruct Hlabel as [(c & Hc & Hcin)|(c & Hc & Hcin)].
      + unfold left_label in Hc. repeat case_decide; subst; try done.
        apply string_app_inj_r in Hc as ->. done.
      + apply list_elem_of_filter in Hcin as [_ Hcin].
        unfold right_label in Hc. case_decide; subst; try done.
        by apply suffix_1_is_not_suffix_2 in Hc. }
  split; [done|]. destruct Habort as [e Habort].
  by destruct (aborted_table conn1 conn2 table k pk_columns df1 df2 e).
Qed.

Lemma structure_drift_is_not_compared_witness :
  let server df :=
    {| show_tables := Fetched ["orders"]; show_columns := λ _, Fetched [];
       show_keys_primary := λ _, Fetched ["id"];
       select_all := λ _, Fetched df |} in
  let without_amount :=
    {| df_columns := ["id"; "status"];
       df_rows := [[PInt 1; PStr "pending"]; [PInt 3; PStr "new"]] |} in
  table_row_records (server orders_1) (server without_amount) "orders" = [].
Proof.
  intros server without_amount.
  apply (structure_drift_is_not_compared (server orders_1) (server without_amount)
           "orders" "id" [] orders_1 without_amount); try reflexivity.
  right. exists "amount". compute_done.
Defined.

(** ** Records and the tables they name *)

Lemma table_row_records_table (conn1 conn2 : Connection) (table : string)
    (r : RowDifference) :
  r ∈ table_row_records conn1 conn2 table →
  rd_Table r = table ∧
  (rd_Status r = "Only in Instance 1" ∧ rd_Column r = "ALL" ∨
   rd_Status r = "Only in Instance 2" ∧ rd_Column r = "ALL" ∨
   rd_Status r = "Different Values").
Proof.
  unfold table_row_records, compare_row_data_table.
  destruct (get_primary_keys conn1 table) as [out [|k pk_columns]]; simpl.
  { rewrite rows_prints_reports. simpl. by intros ?%elem_of_nil. }
  destruct (get_table_data conn1 table) as [out1 [df1|]],
           (get_table_data conn2 table) as [out2 [df2|]]; simpl;
    rewrite ?rows_prints_reports; simpl; try by intros ?%elem_of_nil.
  destruct (compare_table_rows table (k :: pk_columns) df1 df2)
    as [e|[report flag]] eqn:Hrun; simpl;
    rewrite ?rows_prints_reports; simpl; try by intros ?%elem_of_nil.
  intros Hr.
  assert (Hin : r ∈ report).
  { destruct flag; simpl in Hr; rewrite ?rows_prints_reports in Hr; simpl in Hr;
      [done|by apply elem_of_nil in Hr]. }
  clear Hr.
  apply compare_table_rows_spec in Hrun
    as (_ & merged & only1 & only2 & emitted & _ & _ & _ & -> & Hcells).
  rewrite !elem_of_app in Hin. destruct Hin as [Hin|[Hin|Hin]].
  - apply list_elem_of_fmap in Hin as (pk & -> & _). simpl. auto.
  - apply list_elem_of_fmap in Hin as (pk & -> & _). simpl. auto.
  - apply list_elem_of_In, in_concat in Hin as (per_row & Hper_row & Hin).
    apply list_elem_of_In, list_elem_of_fmap in Hper_row as (slots & -> & Hslots).
    apply in_concat in Hin as (records & Hrecords & Hin).
    apply list_elem_of_In in Hrecords, Hin.
    rewrite Forall2_lookup in Hcells.
    apply list_elem_of_lookup in Hslots as [i Hslots].
    specialize (Hcells i). rewrite Hslots in Hcells.
    inversion Hcells as [row slots' Hrow Heq1 Heq2|]; subst.
    rewrite Forall2_lookup in Hrow.
    apply list_elem_of_lookup in Hrecords as [j Hrecords].
    specialize (Hrow j). rewrite Hrecords in Hrow.
    inversion Hrow as [col records' Hcell Heq3 Heq4|]; subst.
    destruct Hcell as (val1 & val2 & _ & _ & Hcell).
    destruct (cell_differs val1 val2).
    + destruct Hcell as (pk & _ & ->).
      apply list_elem_of_singleton in Hin as ->. simpl. auto.
    + subst. by apply elem_of_nil in Hin.
Qed.

(** X13. The column stage and the row stage only speak about tables that
    both instances list: every column record and every row record of a run
    names a common table, and a row record is either a whole-row record
    (column [ALL], status [Only in Instance 1] or [Only in Instance 2]) or
    a [Different Values] record. *)
Theorem records_name_common_tables (seed : HashSeed) (report_dir : string)
    (conn1 conn2 : Connection) :
  let run := run_comparison seed report_dir conn1 conn2 in
  (∀ r, r ∈ column_records run →
        cd_Table r ∈ get_tables conn1 ∧ cd_Table r ∈ get_tables conn2) ∧
  (∀ r, r ∈ row_records run →
        rd_Table r ∈ get_tables conn1 ∧ rd_Table r ∈ get_tables conn2 ∧
        (rd_Status r = "Only in Instance 1" ∧ rd_Column r = "ALL" ∨
         rd_Status r = "Only in Instance 2" ∧ rd_Column r = "ALL" ∨
         rd_Status r = "Different Values")).
Proof.
  intros run. unfold run.
  destruct (run_comparison_blocks seed report_dir conn1 conn2) as [-> ->].
  assert (Hcommon : ∀ table,
            table ∈ set_iter seed
              (common_tables (list_to_set (get_tables conn1))
                             (list_to_set (get_tables conn2))) →
            table ∈ get_tables conn1 ∧ table ∈ get_tables conn2).
  { intros table. rewrite set_iter_perm, elem_of_elements.
    unfold common_tables. rewrite elem_of_intersection, !elem_of_list_to_set. done. }
  split.
  - intros r Hr.
    apply list_elem_of_In, in_flat_map in Hr as (table & Htable & Hr).
    apply list_elem_of_In in Htable, Hr.
    assert (cd_Table r = table) as ->; [|by apply Hcommon].
    unfold table_column_records in Hr.
    destruct (get_table_schema conn1 table) as [out1 [columns1|]],
             (get_table_schema conn2 table) as [out2 [columns2|]];
      try by apply elem_of_nil in Hr.
    by apply table_column_report_table in Hr.
  - intros r Hr.
    apply list_elem_of_In, in_flat_map in Hr as (table & Htable & Hr).
    apply list_elem_of_In in Htable, Hr.
    apply table_row_records_table in Hr as [-> Hstatus].
    destruct (Hcommon _ Htable). done.
Qed.

Lemma records_name_common_tables_witness :
  "a" ∈ get_tables (sample_server "int" orders_1) ∧
  "a" ∈ get_tables (sample_server "bigint" orders_2).
Proof.
  destruct (records_name_common_tables seed_asc "reports"
              (sample_server "int" orders_1) (sample_server "bigint" orders_2))
    as [Hcolumns _].
  apply (Hcolumns
    {| cd_Table := "a"; cd_Column := "id"; cd_Status := "Different";
       cd_Type_1 := "int"; cd_Null_1 := "NO"; cd_Key_1 := "PRI";
       cd_Default_1 := None; cd_Extra_1 := EmptyString;
       cd_Type_2 := "bigint"; cd_Null_2 := "NO"; cd_Key_2 := "PRI";
       cd_Default_2 := None; cd_Extra_2 := EmptyString;
       cd_Difference := "Type(int vs bigint)" |}).
  compute_done.
Defined.

(** ** [format_pk] *)

Lemma string_concat_cons (sep s : string) (ss : list string) :
  ss ≠ [] → String.concat sep (s :: ss) = s +:+ sep +:+ String.concat sep ss.
Proof. by destruct ss. Qed.

Lemma string_app_assoc (s1 s2 s3 : string) :
  (s1 +:+ s2) +:+ s3 = s1 +:+ s2 +:+ s3.
Proof.
  induction s1 as [|a s1 IH]; [done|].
  rewrite !string_app_cons. by rewrite IH.
Qed.

Lemma string_concat_app (sep : string) (ss1 ss2 : list string) :
  ss1 ≠ [] → ss2 ≠ [] →
  String.concat sep (ss1 ++ ss2) =
    String.concat sep ss1 +:+ sep +:+ String.concat sep ss2.
Proof.
  intros Hss1 Hss2. induction ss1 as [|s ss1 IH]; [done|].
  destruct ss1 as [|s' ss1].
  - simpl app. by rewrite string_concat_cons.
  - rewrite <-app_comm_cons, !string_concat_cons by done.
    rewrite IH by done. by rewrite !string_app_assoc.
Qed.

(** X14. A composite key is displayed as the displays of its parts joined
    by a comma and a space, and the display does not identify the key: a
    text key that contains the separator is displayed like the composite
    key of its two halves, and an integer key like the text key with the
    same digits. *)
Theorem format_pk_is_ambiguous :
  (∀ keys1 keys2, keys1 ≠ [] → keys2 ≠ [] →
     format_pk (keys1 ++ keys2) = format_pk keys1 +:+ ", " +:+ format_pk keys2) ∧
  (∀ a b, format_pk [PStr (a +:+ ", " +:+ b)] = format_pk [PStr a; PStr b]) ∧
  (∀ z, format_pk [PInt z] = format_pk [PStr (pretty z)]).
Proof.
  split_and!; [|done|done].
  intros keys1 keys2 H1 H2. unfold format_pk. rewrite fmap_app.
  apply string_concat_app; by destruct keys1, keys2.
Qed.

Lemma format_pk_is_ambiguous_witness :
  format_pk ([PInt 7; PStr "x"] ++ [PNone]) = "7, x, None".
Proof.
  destruct format_pk_is_ambiguous as [Happ _].
  rewrite Happ by done. reflexivity.
Defined.

(** ** Connections and cursors *)

Lemma connect_opens (db_name : string) (instance1 instance2 : ConnectResult) :
  let '(self, out, raised) := connect db_name instance1 instance2 new_comparator in
  match raised with
  | None => ∃ c1 c2, instance1 = Connected c1 ∧ instance2 = Connected c2 ∧
                     conn1 self = OpenHandle c1 ∧ conn2 self = OpenHandle c2
  | Some e =>
      conn2 self = NoHandle ∧
      ((∃ errno, instance1 = ConnectError errno e ∧ conn1 self = NoHandle) ∨
       (∃ c1 errno, instance1 = Connected c1 ∧ instance2 = ConnectError errno e ∧
                    conn1 self = OpenHandle c1))
  end.
Proof.
  unfold connect. destruct instance1 as [c1|errno1 e1]; simpl.
  - destruct instance2 as [c2|errno2 e2]; simpl; eauto 10.
  - eauto 10.
Qed.


(** With every cursor granted, the stages are those of the connections. *)
Lemma granted_compare_columns_loop (seed : HashSeed) (link1 link2 : Link)
    (tables : list string) (st : ColumnsState) :
  (∀ table, table ∈ tables →
     refused link1 (SHOW_COLUMNS table) = None ∧
     refused link2 (SHOW_COLUMNS table) = None) →
  Cursors.compare_columns_loop seed link1 link2 tables st =
    inr (compare_columns_loop seed (answers link1) (answers link2) tables st).
Proof.
  revert st. induction tables as [|table tables IH]; intros st Hgranted; [done|].
  destruct (Hgranted table) as [H1 H2]; [by left|].
  cbn [Cursors.compare_columns_loop]. unfold Cursors.compare_columns_table,
    Cursors.get_table_schema, cursor. rewrite H1, H2. simpl.
  apply IH. intros t Ht. apply Hgranted. by right.
Qed.

Lemma granted_compare_row_data_loop (link1 link2 : Link)
    (tables : list string) (st : RowsState) :
  (∀ table, table ∈ tables → refused link1 (SHOW_KEYS table) = None) →
  Cursors.compare_row_data_loop link1 link2 tables st =
    compare_row_data_loop (answers link1) (answers link2) tables st.
Proof.
  unfold Cursors.compare_row_data_loop, compare_row_data_loop.
  revert st. induction tables as [|table tables IH]; intros st Hgranted; [done|].
  simpl. rewrite IH by (intros t Ht; apply Hgranted; by right).
  unfold Cursors.compare_row_data_table, Cursors.get_primary_keys, cursor.
  by rewrite (Hgranted table) by (by left).
Qed.

Lemma granted_run (seed : HashSeed) (report_dir : string) (link1 link2 : Link) :
  (∀ q, refused link1 q = None) → (∀ q, refused link2 q = None) →
  Cursors.run_comparison seed report_dir link1 link2 =
    (run_comparison seed report_dir (answers link1) (answers link2), None).
Proof.
  intros H1 H2.
  unfold Cursors.run_comparison, Cursors.compare_schemas, Cursors.get_tables,
    cursor, run_comparison.
  rewrite H1, H2. simpl.
  destruct (compare_schemas seed (answers link1) (answers link2))
    as [schema_report common].
  case_decide; [|done].
  unfold Cursors.compare_columns.
  rewrite granted_compare_columns_loop by (intros; split; [apply H1|apply H2]).
  simpl. unfold Cursors.compare_row_data.
  rewrite granted_compare_row_data_loop by (intros; apply H1).
  done.
Qed.

(** A refused cursor of [get_table_schema] leaves the loop of
    [compare_columns], whatever the tables before it gave. *)
Lemma refused_compare_columns_loop (seed : HashSeed) (link1 link2 : Link)
    (tables : list string) (st : ColumnsState) (table : string) :
  table ∈ tables →
  refused link1 (SHOW_COLUMNS table) ≠ None ∨
  refused link2 (SHOW_COLUMNS table) ≠ None →
  ∃ e, Cursors.compare_columns_loop seed link1 link2 tables st = inl e.
Proof.
  revert st. induction tables as [|t tables IH]; intros st Hin Hrefused.
  { by apply elem_of_nil in Hin. }
  cbn [Cursors.compare_columns_loop].
  destruct (Cursors.compare_columns_table seed link1 link2 st t)
    as [e|st'] eqn:Hstep; [by exists e|].
  simpl. apply elem_of_cons in Hin as [->|Hin]; [|by apply IH].
  exfalso. unfold Cursors.compare_columns_table, Cursors.get_table_schema,
    cursor in Hstep.
  destruct (refused link1 (SHOW_COLUMNS t)); [done|].
  destruct (refused link2 (SHOW_COLUMNS t)); [done|].
  by destruct Hrefused.
Qed.

(** C9. The claim holds for what fails inside a [try] block, and the code
    breaks it for the cursor of [get_table_schema]: [connection.cursor()]
    is called before the [try], and the loop of [compare_columns] has no
    [try] of its own, unlike the loop of [compare_row_data].  When the
    cursor for the columns of one common table is refused on either
    instance, the exception leaves [compare_columns] and reaches the
    [except] clause of [run_comparison]: the run is aborted, the column
    records of the other tables are not written, the row stage does not
    run, and the two lines of a failed run are printed instead of the
    success line. *)
Theorem cursor_failure_aborts_run (seed : HashSeed) (db_name report_dir : string)
    (link1 link2 : Link) (table : string) :
  refused link1 SHOW_TABLES = None → refused link2 SHOW_TABLES = None →
  table ∈ get_tables (answers link1) → table ∈ get_tables (answers link2) →
  refused link1 (SHOW_COLUMNS table) ≠ None ∨
  refused link2 (SHOW_COLUMNS table) ≠ None →
  let outcome :=
    run_comparison_from_connect seed db_name report_dir
      (Connected link1) (Connected link2) in
  column_records (run_reports outcome) = [] ∧
  row_records (run_reports outcome) = [] ∧
  (∃ before e,
     run_stdout outcome =
       before ++ [nl +:+ "Error during comparison: " +:+ e;
                  "Comparison incomplete due to errors."]) ∧
  (nl +:+ "=== Comparison completed successfully! ===" ∉ run_stdout outcome).
Proof.
  intros Htables1 Htables2 Hin1 Hin2 Hrefused outcome. unfold outcome.
  unfold run_comparison_from_connect, connect. simpl.
  unfold Cursors.run_comparison, Cursors.compare_schemas, Cursors.get_tables,
    cursor.
  rewrite Htables1, Htables2. simpl.
  pose proof (compare_schemas_common seed (answers link1) (answers link2))
    as Hcommon.
  destruct (compare_schemas seed (answers link1) (answers link2))
    as [schema_report common]. simpl in Hcommon.
  assert (Htable : table ∈ common).
  { rewrite Hcommon. unfold common_tables.
    rewrite elem_of_intersection, !elem_of_list_to_set. done. }
  case_decide as Hne; [|exfalso; set_solver].
  unfold Cursors.compare_columns.
  destruct (refused_compare_columns_loop seed link1 link2 (set_iter seed common)
              columns_init table) as [e ->]; [|done|].
  { rewrite set_iter_perm. by apply elem_of_elements. }
  simpl. split_and!; [done|done| |].
  - by eexists [_; _; _; _], _.
  - unfold failed_run; simpl. rewrite !elem_of_cons, elem_of_nil.
    intros [H|[H|[H|[H|[H|[H|[]]]]]]]; vm_compute in H; discriminate.
Qed.

Lemma cursor_failure_aborts_run_witness :
  let link1 := granting (sample_server "int" orders_1) in
  let link2 := granting (sample_server "bigint" orders_2) in
  let outcome :=
    run_comparison_from_connect seed_asc "shop" "reports"
      (Connected link1) (Connected (losing_cursor (SHOW_COLUMNS "b") link2)) in
  (column_records (run_reports outcome) = [] ∧
   row_records (run_reports outcome) = [] ∧
   (∃ before e,
      run_stdout outcome =
        before ++ [nl +:+ "Error during comparison: " +:+ e;
                   "Comparison incomplete due to errors."]) ∧
   (nl +:+ "=== Comparison completed successfully! ===" ∉ run_stdout outcome)) ∧
  length (column_records (Cursors.run_comparison seed_asc "reports" link1 link2).1) = 3 ∧
  length (row_records (Cursors.run_comparison seed_asc "reports" link1 link2).1) = 6.
Proof.
  intros link1 link2 outcome. split; [|by vm_compute].
  apply (cursor_failure_aborts_run seed_asc "shop" "reports" link1
           (losing_cursor (SHOW_COLUMNS "b") link2) "b");
    [reflexivity|reflexivity|compute_done|compute_done|right; by vm_compute].
Defined.

(** X16. What ends a run: a connection error, or an exception that leaves
    a stage.  When either instance cannot be connected, no stage runs,
    nothing is written, the output ends with the error line chosen by the
    error code followed by the two lines of the failed run, and the success
    line is not printed.  When both connect, the records written are those
    of the stages; the run ends with the two lines of a failed run, without
    the success line, exactly when an exception leaves a stage, and with
    the success line otherwise.  On connections that grant every cursor no
    exception leaves a stage, whichever queries fail. *)
Theorem connection_errors_are_fatal (seed : HashSeed) (db_name report_dir : string)
    (instance1 instance2 : ConnectResult) :
  let outcome :=
    run_comparison_from_connect seed db_name report_dir instance1 instance2 in
  let completed := nl +:+ "=== Comparison completed successfully! ===" in
  let incomplete := "Comparison incomplete due to errors." in
  (∀ errno e,
     instance1 = ConnectError errno e ∨
     (∃ c1, instance1 = Connected c1 ∧ instance2 = ConnectError errno e) →
     run_reports outcome =
       {| table_records := []; column_records := []; row_records := [] |} ∧
     (completed ∉ run_stdout outcome) ∧
     ∃ before,
       run_stdout outcome =
         before ++
         [match errno with
          | ER_ACCESS_DENIED_ERROR =>
              "Error: Access denied for one or both instances"
          | ER_BAD_DB_ERROR =>
              "Error: Database " +:+ db_name +:+
              " does not exist on one or both instances"
          | other_errno => "Error: " +:+ e
          end;
          nl +:+ "Error during comparison: " +:+ e; incomplete]) ∧
  (∀ link1 link2, instance1 = Connected link1 → instance2 = Connected link2 →
     run_reports outcome = (Cursors.run_comparison seed report_dir link1 link2).1 ∧
     match (Cursors.run_comparison seed report_dir link1 link2).2 with
     | Some e =>
         (completed ∉ run_stdout outcome) ∧
         ∃ before,
           run_stdout outcome =
             before ++ [nl +:+ "Error during comparison: " +:+ str_exception e;
                        incomplete]
     | None =>
         completed ∈ run_stdout outcome ∧ (incomplete ∉ run_stdout outcome)
     end) ∧
  (∀ c1 c2, instance1 = Connected (granting c1) →
     instance2 = Connected (granting c2) →
     run_reports outcome = run_comparison seed report_dir c1 c2 ∧
     completed ∈ run_stdout outcome ∧ (incomplete ∉ run_stdout outcome)).
Proof.
  intros outcome completed incomplete.
  assert (Hlinks : ∀ link1 link2,
    instance1 = Connected link1 → instance2 = Connected link2 →
    run_reports outcome = (Cursors.run_comparison seed report_dir link1 link2).1 ∧
    match (Cursors.run_comparison seed report_dir link1 link2).2 with
    | Some e =>
        (completed ∉ run_stdout outcome) ∧
        ∃ before,
          run_stdout outcome =
            before ++ [nl +:+ "Error during comparison: " +:+ str_exception e;
                       incomplete]
    | None => completed ∈ run_stdout outcome ∧ (incomplete ∉ run_stdout outcome)
    end).
  { intros link1 link2 H1 H2. unfold outcome, completed, incomplete.
    rewrite H1, H2. unfold run_comparison_from_connect, connect. simpl.
    destruct (Cursors.run_comparison seed report_dir link1 link2)
      as [reports [e|]]; simpl; (split; [done|]).
    - split; [|by eexists [_; _; _; _]].
      unfold failed_run; simpl. rewrite !elem_of_cons, elem_of_nil.
      intros [H|[H|[H|[H|[H|[H|[]]]]]]]; vm_compute in H; discriminate.
    - split; [unfold failed_run; simpl; set_solver|].
      unfold failed_run; simpl. rewrite !elem_of_cons, elem_of_nil.
      intros [H|[H|[H|[H|[H|[H|[]]]]]]]; vm_compute in H; discriminate. }
  split_and!; [|exact Hlinks|].
  - intros errno e Hfail. unfold outcome, completed, incomplete.
    unfold run_comparison_from_connect, connect.
    destruct Hfail as [->|(c1 & -> & ->)]; simpl.
    + split_and!; [done| |by eexists [_]].
      unfold failed_run; simpl. rewrite !elem_of_cons, elem_of_nil.
      intros [H|[H|[H|[H|[]]]]];
        first [by vm_compute in H
              | destruct errno; vm_compute in H; discriminate].
    + split_and!; [done| |by eexists [_; _; _]].
      unfold failed_run; simpl. rewrite !elem_of_cons, elem_of_nil.
      intros [H|[H|[H|[H|[H|[H|[]]]]]]];
        first [by vm_compute in H
              | destruct errno; vm_compute in H; discriminate].
  - intros c1 c2 H1 H2. destruct (Hlinks _ _ H1 H2) as [Hreports Hlines].
    rewrite granted_run in Hreports, Hlines by done. done.
Qed.

Lemma connection_errors_are_fatal_witness :
  let lost := ConnectError ER_BAD_DB_ERROR "1049 (42000): Unknown database" in
  let users := Connected (granting (sample_on ["users"])) in
  run_reports (run_comparison_from_connect seed_asc "shop" "reports" users lost) =
    {| table_records := []; column_records := []; row_records := [] |} ∧
  run_reports (run_comparison_from_connect seed_asc "shop" "reports" users users) =
    run_comparison seed_asc "reports" (sample_on ["users"]) (sample_on ["users"]).
Proof.
  intros lost users. split.
  - destruct (connection_errors_are_fatal seed_asc "shop" "reports" users lost)
      as [Hfatal _].
    apply (Hfatal ER_BAD_DB_ERROR "1049 (42000): Unknown database").
    right. eexists. split; reflexivity.
  - destruct (connection_errors_are_fatal seed_asc "shop" "reports" users users)
      as (_ & _ & Hruns).
    by apply Hruns.
Defined.
